(** * LisaBackend: the in-memory user service of [server.js]

    A shallow embedding of the request validator, the [User] class and the
    five route handlers of [server.js], with the properties of the service's
    specification stated over them.

    The program is JavaScript, so the embedding starts with the part of the
    language the handlers rely on (module [JS]): strings as sequences of
    UTF-16 code units, the values [JSON.parse] can put into [req.body],
    truthiness, [===], [String.prototype.trim], [String.prototype.includes],
    the conversion to string that [parseInt] applies to its argument, and
    [parseInt] itself. Module [Server] follows [server.js] top to bottom: the
    [User] class, the [users] object, [validateUserData], the routes and the
    error middleware. Module [Properties] holds the theorems. *)

From Stdlib Require Import String Ascii.
From Stdlib Require Import List NArith ZArith Bool Lia.
From Stdlib Require DecimalFacts DecimalPos.
Import ListNotations.

Set Warnings "-register-all".
Close Scope string_scope.
Open Scope list_scope.

(* ================================================================== *)
(** ** JavaScript values *)
(* ================================================================== *)

Module JS.

(** A JavaScript string is a sequence of 16-bit code units. *)
Definition jstring := list N.

(** The JavaScript string written by an ASCII literal of the source. *)
Definition lit (s : string) : jstring :=
  map N_of_ascii (list_ascii_of_string s).
Arguments lit s%_string : simpl never.

Fixpoint jstring_eqb (a b : jstring) : bool :=
  match a, b with
  | [], [] => true
  | x :: a', y :: b' => N.eqb x y && jstring_eqb a' b'
  | _, _ => false
  end.

(** A Number as [Number::toString] sees it: a zero of either sign, an
    infinity of either sign ([JSON.parse] yields one for a literal out of
    range), or a finite non-zero value [(-1)^negative * digits * 10^exponent].
    The decimal [digits] and [exponent] are the ones step 5 of
    [Number::toString] selects for the value (the shortest decimal that reads
    back as the same double); every double has such a triple, so a statement
    about all triples covers all doubles. [NaN] is not a JSON value. *)
Inductive number :=
| NZero (negative : bool)
| NFinite (negative : bool) (digits : positive) (exponent : Z)
| NInfinity (negative : bool).

(** What [JSON.parse] produces, plus [undefined] (the value of a property that
    is not there). An object is the list of its own properties. *)
Inductive value :=
| VUndefined
| VNull
| VBool (b : bool)
| VNum (n : number)
| VStr (s : jstring)
| VArr (items : list value)
| VObj (props : list (jstring * value)).

Inductive exn := TypeError.

(** The outcome of evaluating an expression: a value or a thrown exception. *)
Inductive result (A : Type) :=
| Ok (a : A)
| Throw (e : exn).
Arguments Ok {A} a.
Arguments Throw {A} e.

Definition rbind {A B} (r : result A) (k : A -> result B) : result B :=
  match r with
  | Ok a => k a
  | Throw e => Throw e
  end.

(** [ToBoolean]: [undefined], [null], [false], [+0], [-0] and the empty
    string are falsy; everything else, every array and object included, is
    truthy. *)
Definition truthy (v : value) : bool :=
  match v with
  | VUndefined | VNull => false
  | VBool b => b
  | VNum (NZero _) => false
  | VNum _ => true
  | VStr [] => false
  | VStr _ => true
  | VArr _ | VObj _ => true
  end.

(** *** Decimal digits *)

Definition digit_char (d : N) : N := 48 + d.

Fixpoint uint_digits (u : Decimal.uint) : list N :=
  match u with
  | Decimal.Nil => []
  | Decimal.D0 u' => 0%N :: uint_digits u'
  | Decimal.D1 u' => 1%N :: uint_digits u'
  | Decimal.D2 u' => 2%N :: uint_digits u'
  | Decimal.D3 u' => 3%N :: uint_digits u'
  | Decimal.D4 u' => 4%N :: uint_digits u'
  | Decimal.D5 u' => 5%N :: uint_digits u'
  | Decimal.D6 u' => 6%N :: uint_digits u'
  | Decimal.D7 u' => 7%N :: uint_digits u'
  | Decimal.D8 u' => 8%N :: uint_digits u'
  | Decimal.D9 u' => 9%N :: uint_digits u'
  end.

(** The decimal digits of a positive integer, most significant first. *)
Definition pos_digits (p : positive) : list N := uint_digits (Pos.to_uint p).

Definition decimal (p : positive) : jstring := map digit_char (pos_digits p).

Fixpoint drop_zeros (ds : list N) : list N :=
  match ds with
  | 0%N :: ds' => drop_zeros ds'
  | _ => ds
  end.

(** The digits of [s] in step 5 of [Number::toString]: [k] is as small as
    possible, so [s] ends in no zero. *)
Definition significant (ds : list N) : list N := rev (drop_zeros (rev ds)).

Definition zeros (n : nat) : jstring := repeat 48%N n.

(** [Number::toString(x, 10)], steps 2 to 10 of ECMA-262. With [ds] the [k]
    significant digits and [n] the position of the decimal point. *)
Definition NumberToString (x : number) : jstring :=
  match x with
  | NZero _ => lit "0"
  | NInfinity neg => (if neg then lit "-" else []) ++ lit "Infinity"
  | NFinite neg s e =>
      let all := pos_digits s in
      let ds := map digit_char (significant all) in
      let k := Z.of_nat (length ds) in
      let n := (e + Z.of_nat (length all))%Z in
      (if neg then lit "-" else []) ++
      (if ((k <=? n) && (n <=? 21))%Z then
         ds ++ zeros (Z.to_nat (n - k))
       else if ((0 <? n) && (n <=? 21))%Z then
         firstn (Z.to_nat n) ds ++ lit "." ++ skipn (Z.to_nat n) ds
       else if ((-6 <? n) && (n <=? 0))%Z then
         lit "0." ++ zeros (Z.to_nat (- n)) ++ ds
       else
         let e1 := (n - 1)%Z in
         let mantissa :=
           match ds with
           | [] => []
           | [d] => [d]
           | d :: rest => d :: lit "." ++ rest
           end in
         mantissa ++ lit "e" ++ (if (e1 <? 0)%Z then lit "-" else lit "+")
                  ++ match Z.abs e1 with
                     | Zpos p => decimal p
                     | _ => lit "0"
                     end)
  end.

(** *** Strings *)

(** The code units [String.prototype.trim] and [parseInt] skip: WhiteSpace
    (TAB, VT, FF, SP, NBSP, ZWNBSP and the Unicode space separators) and
    LineTerminator (LF, CR, LS, PS). *)
Definition white_space : list N :=
  [9; 10; 11; 12; 13; 32; 160; 5760; 8192; 8193; 8194; 8195; 8196; 8197;
   8198; 8199; 8200; 8201; 8202; 8232; 8233; 8239; 8287; 12288; 65279]%N.

Definition is_white_space (c : N) : bool := existsb (N.eqb c) white_space.

Fixpoint trim_start (s : jstring) : jstring :=
  match s with
  | c :: s' => if is_white_space c then trim_start s' else s
  | [] => []
  end.

(** [String.prototype.trim]. *)
Definition trim (s : jstring) : jstring := rev (trim_start (rev (trim_start s))).

(** [s.includes(c)] for a one-unit search string [c]. *)
Definition includes (s : jstring) (c : N) : bool := existsb (N.eqb c) s.

(** A method call [v.trim()]. Only a string has a callable [trim]: on a
    number, a boolean or an array the property is [undefined], and on an
    object parsed from JSON it is [undefined] or a JSON value; calling either
    throws a TypeError. The handlers call it on truthy values only. *)
Definition call_trim (v : value) : result jstring :=
  match v with
  | VStr s => Ok (trim s)
  | _ => Throw TypeError
  end.

(** A method call [v.includes('@')], as [call_trim]. *)
Definition call_includes (v : value) (c : N) : result bool :=
  match v with
  | VStr s => Ok (includes s c)
  | _ => Throw TypeError
  end.

(** *** Property access *)

(** The own property [k] of an object given by its property list. *)
Fixpoint own_property {A} (props : list (jstring * A)) (k : jstring) : option A :=
  match props with
  | [] => None
  | (k', v) :: rest => if jstring_eqb k' k then Some v else own_property rest k
  end.

(** [data.name], [data.email], [data.age]: the own property of an object,
    and [undefined] on anything else, since neither [Object.prototype] nor
    [Array.prototype] nor a primitive's wrapper defines one of the three.
    (On [null] and [undefined] the access throws; the handlers reject a falsy
    body before they read a field.) *)
Definition field (data : value) (k : jstring) : value :=
  match data with
  | VObj props =>
      match own_property props k with
      | Some v => v
      | None => VUndefined
      end
  | _ => VUndefined
  end.

(** [Object.keys(data).length] for a value that is not [null] or
    [undefined]. *)
Definition keys_length (data : value) : nat :=
  match data with
  | VObj props => length props
  | VArr items => length items
  | VStr s => length s
  | _ => 0
  end.

(** *** ToString *)

(** [ToString(v)], which [parseInt] applies to its argument. An array is
    joined with commas, [null] and [undefined] elements giving the empty
    string. An object goes through [OrdinaryToPrimitive]: without an own
    [toString] it is ["[object Object]"]; an own [toString] parsed from JSON
    is not callable and the [valueOf] tried next yields no primitive, which
    throws a TypeError. *)
Fixpoint ToString (v : value) : result jstring :=
  match v with
  | VUndefined => Ok (lit "undefined")
  | VNull => Ok (lit "null")
  | VBool true => Ok (lit "true")
  | VBool false => Ok (lit "false")
  | VNum n => Ok (NumberToString n)
  | VStr s => Ok s
  | VArr items =>
      let element (x : value) : result jstring :=
        match x with
        | VUndefined | VNull => Ok []
        | _ => ToString x
        end in
      (fix join (l : list value) : result jstring :=
         match l with
         | [] => Ok []
         | x :: rest =>
             rbind (element x) (fun sx =>
             match rest with
             | [] => Ok sx
             | _ => rbind (join rest) (fun sr => Ok (sx ++ lit "," ++ sr))
             end)
         end) items
  | VObj props =>
      match own_property props (lit "toString") with
      | Some _ => Throw TypeError
      | None => Ok (lit "[object Object]")
      end
  end.

(** *** parseInt *)

(** What [parseInt] returns: [NaN], or the sign and magnitude of the integer
    read. The magnitude is the mathematical one; [parseInt] rounds it to a
    double, which changes neither [isNaN] nor the comparison with zero. *)
Inductive parsed :=
| NaN
| Int (negative : bool) (magnitude : N).

Definition isNaN (p : parsed) : bool :=
  match p with NaN => true | Int _ _ => false end.

(** [p < 0]: false for [NaN] and for both zeros. *)
Definition lt_zero (p : parsed) : bool :=
  match p with
  | Int true m => (0 <? m)%N
  | _ => false
  end.

(** The value of code unit [c] as a digit in [radix], if it is one. *)
Definition digit_value (radix c : N) : option N :=
  let d := if ((48 <=? c) && (c <=? 57))%N then Some (c - 48)%N
           else if ((97 <=? c) && (c <=? 122))%N then Some (c - 87)%N
           else if ((65 <=? c) && (c <=? 90))%N then Some (c - 55)%N
           else None in
  match d with
  | Some n => if (n <? radix)%N then Some n else None
  | None => None
  end.

(** The integer written by the longest prefix of [s] made of digits in
    [radix]; [acc] is [None] until a digit has been read. *)
Fixpoint read_digits (radix : N) (s : jstring) (acc : option N) : option N :=
  match s with
  | [] => acc
  | c :: s' =>
      match digit_value radix c with
      | Some d =>
          read_digits radix s'
            (Some (match acc with Some a => a * radix + d | None => d end)%N)
      | None => acc
      end
  end.

(** [parseInt] on a string, with no radix argument: skip white space, read a
    sign, read a [0x] or [0X] prefix, read digits. *)
Definition parseInt_string (s : jstring) : parsed :=
  let s1 := trim_start s in
  let '(neg, s2) :=
    match s1 with
    | 45%N :: r => (true, r)
    | 43%N :: r => (false, r)
    | _ => (false, s1)
    end in
  let '(radix, s3) :=
    match s2 with
    | 48%N :: x :: r =>
        if (N.eqb x 120 || N.eqb x 88)%N then (16%N, r) else (10%N, s2)
    | _ => (10%N, s2)
    end in
  match read_digits radix s3 None with
  | None => NaN
  | Some m => Int neg m
  end.

(** [parseInt(v)]. *)
Definition parseInt (v : value) : result parsed :=
  rbind (ToString v) (fun s => Ok (parseInt_string s)).

(** *** Strict equality *)

Definition number_eqb (a b : number) : bool :=
  match a, b with
  | NZero _, NZero _ => true
  | NInfinity x, NInfinity y => Bool.eqb x y
  | NFinite n1 s1 e1, NFinite n2 s2 e2 =>
      Bool.eqb n1 n2
      && jstring_eqb (significant (pos_digits s1)) (significant (pos_digits s2))
      && (e1 + Z.of_nat (length (pos_digits s1))
          =? e2 + Z.of_nat (length (pos_digits s2)))%Z
  | _, _ => false
  end.

(** [a === b]. Two arrays or objects are equal when they are the same
    object; the ones compared here come from the bodies of different
    requests, each parsed into fresh objects, so they never are. *)
Definition strict_equals (a b : value) : bool :=
  match a, b with
  | VUndefined, VUndefined => true
  | VNull, VNull => true
  | VBool x, VBool y => Bool.eqb x y
  | VNum x, VNum y => number_eqb x y
  | VStr x, VStr y => jstring_eqb x y
  | _, _ => false
  end.

End JS.

(* ================================================================== *)
(** ** The server *)
(* ================================================================== *)

Module Server.
Import JS.

(** *** What a request reads from outside *)

(** The three things a handler takes from its environment: the 128 random
    bits [uuidv4()] draws, and the results of the first and the second
    [new Date().toISOString()] of the request. *)
Record env := {
  random : N;
  now1 : jstring;
  now2 : jstring
}.

Definition hex_char (d : N) : N := if (d <? 10)%N then (48 + d)%N else (87 + d)%N.

Definition hex_byte (b : N) : jstring :=
  [hex_char (b / 16)%N; hex_char (b mod 16)%N].

(** Byte [i] (0 is the first) of the 16 random bytes. *)
Definition random_byte (r : N) (i : N) : N :=
  N.land (N.shiftr r (8 * (15 - i))%N) 255%N.
Arguments random_byte r%_N i%_N.

(** [uuidv4()] of the [uuid] package: RFC 4122 version 4, the random bytes
    with the version and variant bits set, printed as 8-4-4-4-12 lower-case
    hexadecimal digits. *)
Definition uuidv4 (r : N) : jstring :=
  let b := random_byte r in
  let b6 := N.lor (N.land (b 6%N) 15) 64 in
  let b8 := N.lor (N.land (b 8%N) 63) 128 in
  hex_byte (b 0%N) ++ hex_byte (b 1%N) ++ hex_byte (b 2%N) ++ hex_byte (b 3%N)
  ++ lit "-" ++ hex_byte (b 4%N) ++ hex_byte (b 5%N)
  ++ lit "-" ++ hex_byte b6 ++ hex_byte (b 7%N)
  ++ lit "-" ++ hex_byte b8 ++ hex_byte (b 9%N)
  ++ lit "-" ++ hex_byte (b 10%N) ++ hex_byte (b 11%N) ++ hex_byte (b 12%N)
  ++ hex_byte (b 13%N) ++ hex_byte (b 14%N) ++ hex_byte (b 15%N).

(** *** class User *)

Record User := {
  id : jstring;
  name : value;
  email : value;
  age : value;
  created_at : jstring;
  updated_at : jstring
}.

(** A default parameter [= null]: it replaces [undefined] only. *)
Definition default_null (v : value) : value :=
  match v with
  | VUndefined => VNull
  | _ => v
  end.

(** [new User(name, email, age)]. *)
Definition new_User (e : env) (name email age : value) : User :=
  let age := default_null age in
  {| id := uuidv4 (random e);
     name := name;
     email := email;
     age := age;
     created_at := now1 e;
     updated_at := now2 e |}.

(** [user.toDict()]. *)
Definition toDict (this : User) : value :=
  VObj [ (lit "id", VStr (id this));
         (lit "name", name this);
         (lit "email", email this);
         (lit "age", age this);
         (lit "created_at", VStr (created_at this));
         (lit "updated_at", VStr (updated_at this)) ].

Definition set_name (this : User) (v : value) : User :=
  {| id := id this; name := v; email := email this; age := age this;
     created_at := created_at this; updated_at := updated_at this |}.

Definition set_email (this : User) (v : value) : User :=
  {| id := id this; name := name this; email := v; age := age this;
     created_at := created_at this; updated_at := updated_at this |}.

Definition set_age (this : User) (v : value) : User :=
  {| id := id this; name := name this; email := email this; age := v;
     created_at := created_at this; updated_at := updated_at this |}.

Definition set_updated_at (this : User) (t : jstring) : User :=
  {| id := id this; name := name this; email := email this; age := age this;
     created_at := created_at this; updated_at := t |}.

(** [user.update(name, email, age)]: the object after the call. *)
Definition update (this : User) (e : env) (name email age : value) : User :=
  let name := default_null name in
  let email := default_null email in
  let age := default_null age in
  let this := if negb (strict_equals name VNull) then set_name this name else this in
  let this := if negb (strict_equals email VNull) then set_email this email else this in
  let this := if negb (strict_equals age VNull) then set_age this age else this in
  set_updated_at this (now1 e).

(** *** const users = {} *)

(** The own properties of [users], in insertion order (the order of
    [Object.values] and [Object.entries] for keys that are not array
    indices, as the keys [uuidv4] makes are). *)
Definition store := list (jstring * User).

(** The property names every plain object inherits from [Object.prototype]. *)
Definition Object_prototype : list jstring :=
  [ lit "constructor"; lit "__defineGetter__"; lit "__defineSetter__";
    lit "hasOwnProperty"; lit "__lookupGetter__"; lit "__lookupSetter__";
    lit "isPrototypeOf"; lit "propertyIsEnumerable"; lit "toString";
    lit "valueOf"; lit "__proto__"; lit "toLocaleString" ].

(** What [users[userId]] can be when it is not [undefined]: a stored user, or
    a property inherited from [Object.prototype] (a function, or the
    prototype itself for [__proto__]), which is truthy and has neither
    [toDict] nor [update]. *)
Inductive property :=
| Stored (user : User)
| Inherited.

(** [users[userId]]; [None] is [undefined]. *)
Definition users_get (users : store) (userId : jstring) : option property :=
  match own_property users userId with
  | Some user => Some (Stored user)
  | None =>
      if existsb (jstring_eqb userId) Object_prototype then Some Inherited
      else None
  end.

(** [users[k] = user]: an existing property keeps its place. *)
Fixpoint users_set (users : store) (k : jstring) (user : User) : store :=
  match users with
  | [] => [(k, user)]
  | (k', u') :: rest =>
      if jstring_eqb k' k then (k, user) :: rest
      else (k', u') :: users_set rest k user
  end.

(** [delete users[k]]: removes an own property, and does nothing when there
    is none. *)
Fixpoint users_delete (users : store) (k : jstring) : store :=
  match users with
  | [] => []
  | (k', u') :: rest =>
      if jstring_eqb k' k then rest else (k', u') :: users_delete rest k
  end.

Definition Object_values (users : store) : list User := map snd users.
Definition Object_entries (users : store) : list (jstring * User) := users.

(** *** validateUserData *)

(** The validator pushes messages onto its [errors] array and may throw in
    the middle: a computation takes the array so far and gives a result and
    the array afterwards, or an exception. *)
Definition validation (A : Type) := list jstring -> result (A * list jstring).

Definition vret {A} (a : A) : validation A := fun errors => Ok (a, errors).

Definition vbind {A B} (c : validation A) (k : A -> validation B) : validation B :=
  fun errors =>
    match c errors with
    | Ok (a, errors') => k a errors'
    | Throw e => Throw e
    end.

(** [errors.push(msg)]. *)
Definition push (msg : jstring) : validation unit :=
  fun errors => Ok (tt, errors ++ [msg]).

(** An expression that may throw, evaluated inside the validator. *)
Definition eval {A} (r : result A) : validation A :=
  fun errors =>
    match r with
    | Ok a => Ok (a, errors)
    | Throw e => Throw e
    end.

Notation "x <- c ;; k" := (vbind c (fun x => k))
  (at level 61, c at next level, right associativity).
Notation "c ;; k" := (vbind c (fun _ => k))
  (at level 61, right associativity).

(** [v && !v.trim()] as a condition. *)
Definition blank (v : value) : result bool :=
  if truthy v then rbind (call_trim v) (fun t => Ok (negb (truthy (VStr t))))
  else Ok false.

(** [v && !v.includes('@')] as a condition. *)
Definition lacks_at (v : value) : result bool :=
  if truthy v then rbind (call_includes v 64%N) (fun b => Ok (negb b))
  else Ok false.

Definition validateUserData (data : value) (requireAll : bool)
  : result (list jstring) :=
  let checks : validation unit :=
    (if requireAll && negb (truthy (field data (lit "name"))) then
       push (lit "Name is required")
     else
       c <- eval (blank (field data (lit "name"))) ;;
       if c then push (lit "Name cannot be empty") else vret tt) ;;
    (if requireAll && negb (truthy (field data (lit "email"))) then
       push (lit "Email is required")
     else
       c <- eval (blank (field data (lit "email"))) ;;
       if c then push (lit "Email cannot be empty")
       else
         c' <- eval (lacks_at (field data (lit "email"))) ;;
         if c' then push (lit "Invalid email format") else vret tt) ;;
    (if negb (strict_equals (field data (lit "age")) VUndefined)
        && negb (strict_equals (field data (lit "age")) VNull) then
       age <- eval (parseInt (field data (lit "age"))) ;;
       if isNaN age || lt_zero age then push (lit "Age must be a positive number")
       else vret tt
     else vret tt)
  in
  rbind (checks []) (fun r => Ok (snd r)).

(** *** The routes *)

Record response := {
  status : nat;
  body : value
}.

(** [res.status(code).json(payload)]. *)
Definition json (code : nat) (payload : value) : response :=
  {| status := code; body := payload |}.

(** [{ error: msg }] and [{ message: msg }]. *)
Definition error_body (msg : jstring) : value := VObj [(lit "error", VStr msg)].
Definition message_body (msg : jstring) : value := VObj [(lit "message", VStr msg)].

(** [!data || Object.keys(data).length === 0]. *)
Definition no_data (data : value) : bool :=
  negb (truthy data) || Nat.eqb (keys_length data) 0.

(** A handler leaves a response or an exception, and the store as it is when
    the handler stops. *)
Definition outcome := (result response * store)%type.

(** [app.post('/users', ...)]. *)
Definition post_users (users : store) (e : env) (data : value) : outcome :=
  if no_data data then
    (Ok (json 400 (error_body (lit "No data provided"))), users)
  else
    match validateUserData data true with
    | Throw x => (Throw x, users)
    | Ok errors =>
        if Nat.ltb 0 (length errors) then
          (Ok (json 400 (VObj [(lit "errors", VArr (map VStr errors))])), users)
        else if existsb (fun user => strict_equals (email user) (field data (lit "email")))
                        (Object_values users) then
          (Ok (json 409 (error_body (lit "Email already exists"))), users)
        else
          let user := new_User e (field data (lit "name"))
                                 (field data (lit "email"))
                                 (field data (lit "age")) in
          (Ok (json 201 (toDict user)), users_set users (id user) user)
    end.

(** [app.get('/users', ...)]. *)
Definition get_users (users : store) : outcome :=
  (Ok (json 200 (VArr (map toDict (Object_values users)))), users).

(** [app.get('/users/:userId', ...)]. *)
Definition get_user (users : store) (userId : jstring) : outcome :=
  match users_get users userId with
  | None => (Ok (json 404 (error_body (lit "User not found"))), users)
  | Some (Stored user) => (Ok (json 200 (toDict user)), users)
  | Some Inherited => (Throw TypeError, users)
  end.

(** [app.put('/users/:userId', ...)]. The user object is the one the store
    holds, so [user.update] changes the store's entry. *)
Definition put_user (users : store) (e : env) (userId : jstring) (data : value)
  : outcome :=
  match users_get users userId with
  | None => (Ok (json 404 (error_body (lit "User not found"))), users)
  | Some user =>
      if no_data data then
        (Ok (json 400 (error_body (lit "No data provided"))), users)
      else
        match validateUserData data false with
        | Throw x => (Throw x, users)
        | Ok errors =>
            if Nat.ltb 0 (length errors) then
              (Ok (json 400 (VObj [(lit "errors", VArr (map VStr errors))])), users)
            else if truthy (field data (lit "email"))
                    && existsb (fun entry =>
                                  negb (jstring_eqb (fst entry) userId)
                                  && strict_equals (email (snd entry))
                                                   (field data (lit "email")))
                               (Object_entries users) then
              (Ok (json 409 (error_body (lit "Email already exists"))), users)
            else
              match user with
              | Stored user =>
                  let user := update user e (field data (lit "name"))
                                            (field data (lit "email"))
                                            (field data (lit "age")) in
                  (Ok (json 200 (toDict user)), users_set users userId user)
              | Inherited => (Throw TypeError, users)
              end
        end
  end.

(** [app.delete('/users/:userId', ...)]. *)
Definition delete_user (users : store) (userId : jstring) : outcome :=
  match users_get users userId with
  | None => (Ok (json 404 (error_body (lit "User not found"))), users)
  | Some _ =>
      (Ok (json 200 (message_body (lit "User deleted successfully"))),
       users_delete users userId)
  end.

(** A request as the router sees it, its JSON body parsed by
    [express.json()] ([VUndefined] when there is none). *)
Inductive request :=
| POST_users (data : value)
| GET_users
| GET_user (userId : jstring)
| PUT_user (userId : jstring) (data : value)
| DELETE_user (userId : jstring)
| Other.

Definition route (users : store) (e : env) (req : request) : outcome :=
  match req with
  | POST_users data => post_users users e data
  | GET_users => get_users users
  | GET_user userId => get_user users userId
  | PUT_user userId data => put_user users e userId data
  | DELETE_user userId => delete_user users userId
  | Other => (Ok (json 404 (error_body (lit "Endpoint not found"))), users)
  end.

(** The application: the matching route, and the error middleware when the
    handler throws. *)
Definition app (users : store) (e : env) (req : request) : response * store :=
  match route users e req with
  | (Ok res, users') => (res, users')
  | (Throw _, users') =>
      (json 500 (error_body (lit "Internal server error")), users')
  end.

(** The store after a sequence of requests, each with its environment. *)
Fixpoint serve (users : store) (reqs : list (env * request)) : store :=
  match reqs with
  | [] => users
  | (e, req) :: rest => serve (snd (app users e req)) rest
  end.

(** *** The validator's input contract and its checks, field by field *)

Definition optional_string (v : value) : bool :=
  match v with
  | VUndefined | VNull | VStr _ => true
  | _ => false
  end.

Definition optional_number_or_string (v : value) : bool :=
  match v with
  | VUndefined | VNull | VNum _ | VStr _ => true
  | _ => false
  end.

(** A payload as the validator's contract has it: an optional string [name],
    an optional string [email], an optional numeric-or-string [age]. *)
Definition payload (data : value) : bool :=
  optional_string (field data (lit "name"))
  && optional_string (field data (lit "email"))
  && optional_number_or_string (field data (lit "age")).

(** What the name check reports, as a function of the name alone: a
    non-empty string is tested for blankness, and anything else falsy counts
    as missing. (On a truthy value that is not a string the check throws.) *)
Definition name_errors (requireAll : bool) (name : value) : list jstring :=
  match name with
  | VStr (c :: s) =>
      match trim (c :: s) with
      | [] => [lit "Name cannot be empty"]
      | _ => []
      end
  | _ =>
      if requireAll && negb (truthy name) then [lit "Name is required"]
      else []
  end.

(** What the email check reports, as a function of the email alone. *)
Definition email_errors (requireAll : bool) (email : value) : list jstring :=
  match email with
  | VStr (c :: s) =>
      match trim (c :: s) with
      | [] => [lit "Email cannot be empty"]
      | _ =>
          if includes (c :: s) 64%N then [] else [lit "Invalid email format"]
      end
  | _ =>
      if requireAll && negb (truthy email) then [lit "Email is required"]
      else []
  end.

Definition age_verdict (p : parsed) : list jstring :=
  if isNaN p || lt_zero p then [lit "Age must be a positive number"] else [].

(** What the age check reports, as a function of the age alone. *)
Definition age_errors (age : value) : list jstring :=
  match age with
  | VNum n => age_verdict (parseInt_string (NumberToString n))
  | VStr s => age_verdict (parseInt_string s)
  | _ => []
  end.

(** What the age check reports or throws, for any age. *)
Definition age_report (age : value) : result (list jstring) :=
  match age with
  | VUndefined | VNull => Ok []
  | _ => rbind (parseInt age) (fun p => Ok (age_verdict p))
  end.

(** A value on which [.trim()] is reached and throws. *)
Definition truthy_non_string (v : value) : bool :=
  truthy v && match v with VStr _ => false | _ => true end.

(** *** What the handlers keep true of the store *)

(** [Object.keys(users)]. *)
Definition keys (users : store) : list jstring := map fst users.

(** Every user is stored once, under its own id; two users stored under
    different ids never share a truthy email; a truthy stored email is a
    string with an [@]; no stored name is a non-empty string of white space
    only. (Falsy names and emails are not covered: an update can store
    them.) *)
Record store_ok (users : store) : Prop := {
  ok_keys : NoDup (keys users);
  ok_ids : forall k u, own_property users k = Some u -> id u = k;
  ok_emails : forall k1 k2 u1 u2,
      own_property users k1 = Some u1 ->
      own_property users k2 = Some u2 ->
      k1 <> k2 ->
      truthy (email u1) = true ->
      email u1 <> email u2;
  ok_email_format : forall k u,
      own_property users k = Some u ->
      truthy (email u) = true ->
      exists s, email u = VStr s /\ includes s 64%N = true;
  ok_names : forall k u s,
      own_property users k = Some u ->
      name u = VStr s ->
      s <> [] ->
      trim s <> []
}.

(** Every key of the store is an id [uuidv4] made. *)
Definition generated_keys (users : store) : Prop :=
  forall k, In k (keys users) -> exists r, k = uuidv4 r.

(** The value a field has after [user.update]: the argument when it is
    neither [undefined] nor [null], the old value otherwise. *)
Definition supplied (argument old : value) : value :=
  match argument with
  | VUndefined | VNull => old
  | _ => argument
  end.

(** An age the age check lets through: none, or one [parseInt] reads as an
    integer that is not below zero. *)
Definition acceptable_age (age : value) : Prop :=
  age = VUndefined \/ age = VNull
  \/ exists p, parseInt age = Ok p /\ isNaN p = false /\ lt_zero p = false.

(** The six messages of the validator. *)
Definition messages : list jstring :=
  [ lit "Name is required"; lit "Name cannot be empty";
    lit "Email is required"; lit "Email cannot be empty";
    lit "Invalid email format"; lit "Age must be a positive number" ].

End Server.

(* ================================================================== *)
(** ** Properties *)
(* ================================================================== *)

Module Properties.
Import JS Server.

#[local] Arguments trim : simpl never.
#[local] Arguments includes : simpl never.
#[local] Arguments parseInt_string : simpl never.
#[local] Arguments NumberToString : simpl never.

(** *** Sample bodies, users and stores *)

(** An age of -1 on an otherwise valid creation payload. *)
Definition payload_negative_age : value :=
  VObj [ (lit "name", VStr (lit "Ann"));
         (lit "email", VStr (lit "ann@x.com"));
         (lit "age", VNum (NFinite true 1 0)) ].

(** No name, an email without [@], a negative age. *)
Definition payload_three_faults : value :=
  VObj [ (lit "email", VStr (lit "bo.x.com"));
         (lit "age", VNum (NFinite true 3 0)) ].

(** A name of two spaces and an email of one tab. *)
Definition payload_blank : value :=
  VObj [ (lit "name", VStr [32; 32]%N); (lit "email", VStr [9]%N) ].

(** The body [{age: 5}]. *)
Definition age_five : value := VObj [(lit "age", VNum (NFinite false 5 0))].

(** A stored user, its id, and an environment for a later request. *)
Definition sample_id : jstring := lit "11111111-1111-4111-8111-111111111111".

Definition sample_user : User :=
  {| id := sample_id; name := VStr (lit "Bo"); email := VStr (lit "bo@x.com");
     age := VNull; created_at := lit "2024-01-01T00:00:00.000Z";
     updated_at := lit "2024-01-01T00:00:00.000Z" |}.

Definition sample_env : env :=
  {| random := 1; now1 := lit "2024-06-01T00:00:00.000Z";
     now2 := lit "2024-06-01T00:00:00.001Z" |}.

(** The body of the scenario, and the same body without an age. *)
Definition ann : value :=
  VObj [ (lit "name", VStr (lit "Ann"));
         (lit "email", VStr (lit "ann@x.com"));
         (lit "age", VNum (NZero false)) ].

Definition ann_without_age : value :=
  VObj [ (lit "name", VStr (lit "Ann"));
         (lit "email", VStr (lit "ann@x.com")) ].

Definition ann_user (e : env) (age : value) : User :=
  {| id := uuidv4 (random e); name := VStr (lit "Ann");
     email := VStr (lit "ann@x.com"); age := age;
     created_at := now1 e; updated_at := now2 e |}.

(** A creation body whose name is the number 5. *)
Definition numeric_name : value :=
  VObj [ (lit "name", VNum (NFinite false 5 0));
         (lit "email", VStr (lit "ann@x.com")) ].

(** The bodies [{name: ""}] and [{email: ""}]. *)
Definition empty_name : value := VObj [(lit "name", VStr [])].
Definition empty_email : value := VObj [(lit "email", VStr [])].

(** The store after Ann has been created in the empty store. *)
Definition ann_env : env :=
  {| random := 1; now1 := lit "2024-05-01T00:00:00.000Z";
     now2 := lit "2024-05-01T00:00:00.000Z" |}.

Definition ann_id : jstring := lit "00000000-0000-4000-8000-000000000001".

Definition after_ann : store := serve [] [(ann_env, POST_users ann)].

(** The store after Ann and Bo have been created in the empty store. *)
Definition bo : value :=
  VObj [ (lit "name", VStr (lit "Bo")); (lit "email", VStr (lit "bo@x.com")) ].

Definition bo_env : env :=
  {| random := 2; now1 := lit "2024-05-02T00:00:00.000Z";
     now2 := lit "2024-05-02T00:00:00.000Z" |}.

Definition bo_id : jstring := lit "00000000-0000-4000-8000-000000000002".

Definition after_ann_and_bo : store :=
  serve [] [(ann_env, POST_users ann); (bo_env, POST_users bo)].

(** Case analysis on the innermost test of a handler. *)
Ltac branch :=
  match goal with
  | |- context [match ?x with _ => _ end] =>
      lazymatch x with
      | context [match _ with _ => _ end] => fail
      | _ => destruct x eqn:?; simpl
      end
  end.

(** *** The store *)

Lemma jstring_eqb_eq (a b : jstring) : jstring_eqb a b = true <-> a = b.
Proof.
  revert b; induction a as [|x a IH]; intros [|y b]; simpl;
    try (split; [discriminate | congruence]); try tauto.
  rewrite andb_true_iff, N.eqb_eq, IH. split.
  - intros [-> ->]; reflexivity.
  - intros H; injection H; auto.
Qed.

Lemma jstring_eqb_refl (a : jstring) : jstring_eqb a a = true.
Proof. apply jstring_eqb_eq; reflexivity. Qed.

Lemma jstring_eqb_neq (a b : jstring) : a <> b -> jstring_eqb a b = false.
Proof.
  intros H. destruct (jstring_eqb a b) eqn:E; [|reflexivity].
  apply jstring_eqb_eq in E. contradiction.
Qed.

Lemma own_property_users_set_same (users : store) k u :
  own_property (users_set users k u) k = Some u.
Proof.
  induction users as [|[k' u'] rest IH]; simpl.
  - now rewrite jstring_eqb_refl.
  - destruct (jstring_eqb k' k) eqn:E; simpl.
    + now rewrite jstring_eqb_refl.
    + now rewrite E.
Qed.

Lemma own_property_users_set_other (users : store) k u k' :
  k' <> k -> own_property (users_set users k u) k' = own_property users k'.
Proof.
  intros Hne. induction users as [|[k0 u0] rest IH]; simpl.
  - rewrite jstring_eqb_neq; auto.
  - destruct (jstring_eqb k0 k) eqn:E; simpl.
    + apply jstring_eqb_eq in E; subst k0.
      now rewrite !(jstring_eqb_neq k k') by auto.
    + now rewrite IH.
Qed.

Lemma existsb_false {A} (f : A -> bool) (l : list A) :
  (forall x, In x l -> f x = false) -> existsb f l = false.
Proof.
  induction l as [|x l IH]; simpl; intros H; [reflexivity|].
  rewrite (H x) by auto. apply IH. auto.
Qed.

(** *** The validator on payloads *)

(** When neither the name nor the email is a truthy non-string, the
    validator gets through the name and email checks, and its outcome is the
    age check's: an exception, or the three reports one after the other. *)
Lemma validateUserData_checks (data : value) (requireAll : bool) :
  truthy_non_string (field data (lit "name")) = false ->
  truthy_non_string (field data (lit "email")) = false ->
  validateUserData data requireAll
  = rbind (age_report (field data (lit "age")))
          (fun report =>
             Ok (name_errors requireAll (field data (lit "name"))
                 ++ email_errors requireAll (field data (lit "email"))
                 ++ report)).
Proof.
  unfold validateUserData.
  generalize (field data (lit "name")) (field data (lit "email"))
             (field data (lit "age")).
  intros n m a Hn Hm.
  assert (Hname : forall errors,
    (if requireAll && negb (truthy n) then push (lit "Name is required")
     else c <- eval (blank n) ;;
          if c then push (lit "Name cannot be empty") else vret tt) errors
    = Ok (tt, errors ++ name_errors requireAll n)).
  { intros errors.
    destruct n as [| |[|]|[?|? ? ?|?]|[|c s]|l|l]; try discriminate Hn;
      destruct requireAll; simpl; unfold push, vret, vbind, eval; simpl;
      rewrite ?app_nil_r; try reflexivity;
      destruct (trim (c :: s)); simpl; rewrite ?app_nil_r; reflexivity. }
  assert (Hemail : forall errors,
    (if requireAll && negb (truthy m) then push (lit "Email is required")
     else c <- eval (blank m) ;;
          if c then push (lit "Email cannot be empty")
          else c' <- eval (lacks_at m) ;;
               if c' then push (lit "Invalid email format") else vret tt) errors
    = Ok (tt, errors ++ email_errors requireAll m)).
  { intros errors.
    destruct m as [| |[|]|[?|? ? ?|?]|[|c s]|l|l]; try discriminate Hm;
      destruct requireAll; simpl; unfold push, vret, vbind, eval; simpl;
      rewrite ?app_nil_r; try reflexivity;
      destruct (trim (c :: s)); simpl; rewrite ?app_nil_r; try reflexivity;
      destruct (includes (c :: s) 64); simpl;
      rewrite ?app_nil_r; reflexivity. }
  assert (Hage : forall errors,
    (if negb (strict_equals a VUndefined) && negb (strict_equals a VNull) then
       age <- eval (parseInt a) ;;
       if isNaN age || lt_zero age
       then push (lit "Age must be a positive number") else vret tt
     else vret tt) errors
    = rbind (age_report a) (fun report => Ok (tt, errors ++ report))).
  { intros errors.
    destruct a as [| |b|x|s|l|l]; simpl;
      unfold push, vret, vbind, eval, age_verdict; simpl;
      rewrite ?app_nil_r; try reflexivity;
      try (destruct (isNaN _ || lt_zero _); simpl; rewrite ?app_nil_r;
           reflexivity);
      destruct (parseInt _) as [p |]; simpl; try reflexivity;
      destruct (isNaN p || lt_zero p); simpl; rewrite ?app_nil_r; reflexivity. }
  unfold vbind at 1. rewrite Hname. unfold vbind at 1. rewrite Hemail.
  rewrite Hage. destruct (age_report a); simpl; [| reflexivity].
  now rewrite app_assoc.
Qed.

Lemma optional_string_not_thrown (v : value) :
  optional_string v = true -> truthy_non_string v = false.
Proof.
  destruct v; simpl; try discriminate; intros _; try reflexivity.
  apply andb_false_r.
Qed.

(** On a payload the validator returns, and its list is the three checks'
    reports one after the other. *)
Lemma validateUserData_payload (data : value) (requireAll : bool) :
  payload data = true ->
  validateUserData data requireAll
  = Ok (name_errors requireAll (field data (lit "name"))
        ++ email_errors requireAll (field data (lit "email"))
        ++ age_errors (field data (lit "age"))).
Proof.
  unfold payload. intros H.
  apply andb_true_iff in H as [H Ha]. apply andb_true_iff in H as [Hn Hm].
  rewrite validateUserData_checks by now apply optional_string_not_thrown.
  destruct (field data (lit "age")); try discriminate Ha; reflexivity.
Qed.

(** The messages of the name check and of the email check. *)
Lemma name_errors_cases (requireAll : bool) (v : value) :
  name_errors requireAll v = []
  \/ name_errors requireAll v = [lit "Name is required"]
  \/ name_errors requireAll v = [lit "Name cannot be empty"].
Proof.
  destruct v as [| |b|x|[|c s]|l|l]; simpl;
    try (destruct (requireAll && _); auto);
    destruct (trim (c :: s)); auto.
Qed.

Lemma email_errors_cases (requireAll : bool) (v : value) :
  email_errors requireAll v = []
  \/ email_errors requireAll v = [lit "Email is required"]
  \/ email_errors requireAll v = [lit "Email cannot be empty"]
  \/ email_errors requireAll v = [lit "Invalid email format"].
Proof.
  destruct v as [| |b|x|[|c s]|l|l]; simpl;
    try (destruct (requireAll && _); auto);
    destruct (trim (c :: s)); auto; destruct (includes (c :: s) 64); auto.
Qed.

Lemma age_message_not_in_name_errors (requireAll : bool) (v : value) :
  ~ In (lit "Age must be a positive number") (name_errors requireAll v).
Proof.
  destruct (name_errors_cases requireAll v) as [-> | [-> | ->]];
    simpl; intros H; repeat (destruct H as [H | H]; [discriminate H |]);
    exact H.
Qed.

Lemma age_message_not_in_email_errors (requireAll : bool) (v : value) :
  ~ In (lit "Age must be a positive number") (email_errors requireAll v).
Proof.
  destruct (email_errors_cases requireAll v) as [-> | [-> | [-> | ->]]];
    simpl; intros H; repeat (destruct H as [H | H]; [discriminate H |]);
    exact H.
Qed.


(** *** The validator: claims *)



(** The boundary of the age check on sample ages: 0, 5, ["12abc"], 1.5 and
    -0.5 (which reads as -0) pass; -1, ["abc"] and the empty string do not. *)
Example age_check_samples :
  age_errors (VNum (NZero false)) = []
  /\ age_errors (VNum (NFinite false 5 0)) = []
  /\ age_errors (VStr (lit "12abc")) = []
  /\ age_errors (VNum (NFinite false 15 (-1))) = []
  /\ age_errors (VNum (NFinite true 5 (-1))) = []
  /\ age_errors (VNum (NFinite true 1 0)) = [lit "Age must be a positive number"]
  /\ age_errors (VStr (lit "abc")) = [lit "Age must be a positive number"]
  /\ age_errors (VStr []) = [lit "Age must be a positive number"].
Proof. repeat split. Qed.

(** C8. For every payload the validator returns one list made of what the
    name check, the email check and the age check each report for their own
    field, in that order: no check's failure hides another's. *)
Theorem checks_run_independently (data : value) (requireAll : bool) :
  payload data = true ->
  validateUserData data requireAll
  = Ok (name_errors requireAll (field data (lit "name"))
        ++ email_errors requireAll (field data (lit "email"))
        ++ age_errors (field data (lit "age"))).
Proof. apply validateUserData_payload. Qed.

Lemma checks_run_independently_witness :
  payload payload_three_faults = true
  /\ validateUserData payload_three_faults true
     = Ok [ lit "Name is required";
            lit "Invalid email format";
            lit "Age must be a positive number" ].
Proof.
  split; [reflexivity |].
  exact (checks_run_independently payload_three_faults true eq_refl).
Defined.

(** C3, as the code has it. For every payload and both modes, a name that is
    a non-empty string trimming to the empty string is reported as "Name
    cannot be empty", and such an email as "Email cannot be empty"; with
    [requireAll] an empty-string name or email is reported as "Name is
    required" or "Email is required". *)
Theorem blank_name_or_email_rejected (data : value) (requireAll : bool) :
  payload data = true ->
  exists errors,
    validateUserData data requireAll = Ok errors
    /\ (forall s, field data (lit "name") = VStr s -> s <> [] -> trim s = [] ->
        In (lit "Name cannot be empty") errors)
    /\ (forall s, field data (lit "email") = VStr s -> s <> [] -> trim s = [] ->
        In (lit "Email cannot be empty") errors)
    /\ (requireAll = true -> field data (lit "name") = VStr [] ->
        In (lit "Name is required") errors)
    /\ (requireAll = true -> field data (lit "email") = VStr [] ->
        In (lit "Email is required") errors).
Proof.
  intros Hp. rewrite (validateUserData_payload data requireAll Hp).
  eexists; split; [reflexivity |].
  repeat split.
  - intros s -> Hs Ht. apply in_or_app; left.
    destruct s; [contradiction |]. simpl. rewrite Ht. now left.
  - intros s -> Hs Ht. apply in_or_app; right; apply in_or_app; left.
    destruct s; [contradiction |]. simpl. rewrite Ht. now left.
  - intros -> ->. apply in_or_app; left. now left.
  - intros -> ->. apply in_or_app; right; apply in_or_app; left. now left.
Qed.

Lemma blank_name_or_email_rejected_witness :
  exists errors,
    validateUserData payload_blank false = Ok errors
    /\ (forall s, field payload_blank (lit "name") = VStr s -> s <> [] ->
        trim s = [] -> In (lit "Name cannot be empty") errors)
    /\ (forall s, field payload_blank (lit "email") = VStr s -> s <> [] ->
        trim s = [] -> In (lit "Email cannot be empty") errors)
    /\ (false = true -> field payload_blank (lit "name") = VStr [] ->
        In (lit "Name is required") errors)
    /\ (false = true -> field payload_blank (lit "email") = VStr [] ->
        In (lit "Email is required") errors).
Proof.
  apply (blank_name_or_email_rejected payload_blank false). reflexivity.
Defined.

(** C3 as stated fails on the empty string: the name is present and trims to
    the empty string, yet the update-mode validator reports nothing and the
    creation-mode validator reports "Name is required" instead; the same
    holds for the email. *)
Lemma empty_string_not_reported_as_empty :
  let data := VObj [ (lit "name", VStr []); (lit "email", VStr []) ] in
  field data (lit "name") = VStr []
  /\ field data (lit "email") = VStr []
  /\ trim [] = []
  /\ validateUserData data false = Ok []
  /\ validateUserData data true
     = Ok [lit "Name is required"; lit "Email is required"]
  /\ ~ In (lit "Name cannot be empty") []
  /\ ~ In (lit "Name cannot be empty")
          [lit "Name is required"; lit "Email is required"]
  /\ ~ In (lit "Email cannot be empty")
          [lit "Name is required"; lit "Email is required"].
Proof.
  repeat split; simpl; try tauto;
    intros [H | [H | []]]; discriminate H.
Qed.

(** *** The handlers: claims *)

Lemma strict_equals_string (v : value) (s : jstring) :
  strict_equals v (VStr s) = true -> v = VStr s.
Proof.
  destruct v; simpl; try discriminate.
  intros H. apply jstring_eqb_eq in H. now subst.
Qed.

(** C4. A request answered with 400, 404 or 409 leaves the store exactly as
    it was. *)
Theorem rejected_request_leaves_store
    (users : store) (e : env) (req : request) :
  status (fst (app users e req)) = 400
  \/ status (fst (app users e req)) = 404
  \/ status (fst (app users e req)) = 409 ->
  snd (app users e req) = users.
Proof.
  unfold app, route, post_users, get_users, get_user, put_user, delete_user.
  destruct req; simpl; repeat branch; try reflexivity;
    intros [H | [H | H]]; discriminate H.
Qed.

Lemma rejected_request_leaves_store_witness :
  snd (app [] {| random := 7; now1 := []; now2 := [] |} (POST_users (VObj [])))
  = [].
Proof.
  apply (rejected_request_leaves_store
           [] {| random := 7; now1 := []; now2 := [] |} (POST_users (VObj []))).
  left. reflexivity.
Defined.

(** C5. For every stored user, PUT with the body [{age: 5}] answers 200 and
    replaces the user's entry by one whose age is 5 and whose [updated_at] is
    the time of the request; id, name, email and [created_at] are the old
    ones, and every other entry of the store is untouched. *)
Theorem put_age_only_keeps_other_fields
    (users : store) (e : env) (userId : jstring) (user : User) :
  own_property users userId = Some user ->
  let user' := {| id := id user; name := name user; email := email user;
                  age := VNum (NFinite false 5 0);
                  created_at := created_at user; updated_at := now1 e |} in
  let users' := snd (app users e (PUT_user userId age_five)) in
  fst (app users e (PUT_user userId age_five)) = json 200 (toDict user')
  /\ own_property users' userId = Some user'
  /\ (forall k, k <> userId -> own_property users' k = own_property users k).
Proof.
  intros H user' users'. subst users'.
  unfold app, route, put_user, users_get. rewrite H.
  change (no_data age_five) with false.
  change (validateUserData age_five false) with (Ok (@nil jstring)).
  cbn -[users_set].
  repeat split.
  - apply own_property_users_set_same.
  - intros k Hk. now apply own_property_users_set_other.
Qed.

Lemma put_age_only_keeps_other_fields_witness :
  let users := [(sample_id, sample_user)] in
  let user' := {| id := sample_id; name := VStr (lit "Bo");
                  email := VStr (lit "bo@x.com");
                  age := VNum (NFinite false 5 0);
                  created_at := lit "2024-01-01T00:00:00.000Z";
                  updated_at := lit "2024-06-01T00:00:00.000Z" |} in
  let users' := snd (app users sample_env (PUT_user sample_id age_five)) in
  fst (app users sample_env (PUT_user sample_id age_five))
  = json 200 (toDict user')
  /\ own_property users' sample_id = Some user'
  /\ (forall k, k <> sample_id -> own_property users' k = own_property users k).
Proof.
  apply (put_age_only_keeps_other_fields
           [(sample_id, sample_user)] sample_env sample_id sample_user).
  reflexivity.
Defined.



(** *** Ids that are not stored *)

(** PUT on an id that is neither stored nor a property name of
    [Object.prototype] answers 404 whatever the body is, and leaves the
    store alone. *)
Lemma put_unknown_id_404
    (users : store) (e : env) (userId : jstring) (data : value) :
  own_property users userId = None ->
  existsb (jstring_eqb userId) Object_prototype = false ->
  app users e (PUT_user userId data)
  = (json 404 (error_body (lit "User not found")), users).
Proof.
  intros Hown Hproto. unfold app, route, put_user, users_get.
  now rewrite Hown, Hproto.
Qed.

(** The ids [uuidv4] makes are 36 code units long, so none of them is a
    property name of [Object.prototype]. *)
Lemma uuidv4_length (r : N) : length (uuidv4 r) = 36.
Proof. reflexivity. Qed.

Lemma uuidv4_not_inherited (r : N) :
  existsb (jstring_eqb (uuidv4 r)) Object_prototype = false.
Proof.
  apply existsb_false. intros k Hin.
  apply jstring_eqb_neq. intros Heq.
  assert (Hlen : length k = 36) by (rewrite <- Heq; apply uuidv4_length).
  simpl in Hin.
  repeat (destruct Hin as [<- | Hin]; [discriminate Hlen |]).
  exact Hin.
Qed.

(** C9, at an id the store does not hold. [users['constructor']] is the
    function every object inherits, so the not-found test is passed over:
    the empty body is answered with 400 and the body [{age: 5}] with 500,
    neither with 404. *)
Theorem put_inherited_id_not_404 (e : env) :
  own_property (@nil (jstring * User)) (lit "constructor") = None
  /\ app [] e (PUT_user (lit "constructor") (VObj []))
     = (json 400 (error_body (lit "No data provided")), [])
  /\ app [] e (PUT_user (lit "constructor") age_five)
     = (json 500 (error_body (lit "Internal server error")), []).
Proof. repeat split. Qed.

(** *** Fields that are not strings *)

Lemma truthy_field_has_data (data : value) (k : jstring) :
  truthy (field data k) = true -> no_data data = false.
Proof.
  destruct data as [| |b|x|s|l|[|p props]]; simpl; try discriminate.
  reflexivity.
Qed.

(** A truthy name or email that is not a string makes the validator throw,
    in either mode. *)
Lemma validateUserData_throws (data : value) (requireAll : bool) :
  truthy_non_string (field data (lit "name"))
  || truthy_non_string (field data (lit "email")) = true ->
  validateUserData data requireAll = Throw TypeError.
Proof.
  unfold validateUserData.
  generalize (field data (lit "name")) (field data (lit "email"))
             (field data (lit "age")).
  intros n m a H.
  destruct n as [| |[|]|[?|? ? ?|?]|[|c s]|l|l]; try reflexivity;
    destruct requireAll; try reflexivity;
    simpl in H; unfold vbind, eval, push, vret; simpl;
    try (destruct (trim (c :: s)); simpl);
    destruct m as [| |[|]|[?|? ? ?|?]|[|c' s']|l'|l']; try discriminate H;
    reflexivity.
Qed.

(** C10, as the code has it. When the body of POST /users, or of PUT on an
    id that [users] resolves, carries a truthy name or email that is not a
    string (a non-zero number, [true], an array or an object), the validator
    throws instead of returning errors, the answer is 500 with "Internal
    server error", and the store is unchanged. *)
Theorem non_string_field_answers_500
    (users : store) (e : env) (data : value) :
  truthy_non_string (field data (lit "name"))
  || truthy_non_string (field data (lit "email")) = true ->
  validateUserData data true = Throw TypeError
  /\ validateUserData data false = Throw TypeError
  /\ app users e (POST_users data)
     = (json 500 (error_body (lit "Internal server error")), users)
  /\ (forall userId, users_get users userId <> None ->
      app users e (PUT_user userId data)
      = (json 500 (error_body (lit "Internal server error")), users)).
Proof.
  intros H.
  assert (Hdata : no_data data = false).
  { apply orb_true_iff in H as [H | H];
      apply andb_true_iff in H as [H _];
      eapply truthy_field_has_data; eassumption. }
  split; [now apply validateUserData_throws |].
  split; [now apply validateUserData_throws |].
  split.
  - unfold app, route, post_users.
    now rewrite Hdata, (validateUserData_throws data true H).
  - intros userId Hget. unfold app, route, put_user.
    destruct (users_get users userId); [| contradiction].
    now rewrite Hdata, (validateUserData_throws data false H).
Qed.

Lemma non_string_field_answers_500_witness :
  validateUserData numeric_name true = Throw TypeError
  /\ validateUserData numeric_name false = Throw TypeError
  /\ app [(sample_id, sample_user)] sample_env (POST_users numeric_name)
     = (json 500 (error_body (lit "Internal server error")),
        [(sample_id, sample_user)])
  /\ (forall userId, users_get [(sample_id, sample_user)] userId <> None ->
      app [(sample_id, sample_user)] sample_env (PUT_user userId numeric_name)
      = (json 500 (error_body (lit "Internal server error")),
         [(sample_id, sample_user)])).
Proof.
  apply (non_string_field_answers_500
           [(sample_id, sample_user)] sample_env numeric_name).
  reflexivity.
Defined.

(** C10 as stated fails on a falsy non-string: the name 0 is neither [null]
    nor a string, [.trim] is never reached, and POST is answered with the 400
    of a validation error, "Name is required". *)
Lemma zero_name_answers_400 :
  let data := VObj [ (lit "name", VNum (NZero false));
                     (lit "email", VStr (lit "ann@x.com")) ] in
  field data (lit "name") = VNum (NZero false)
  /\ validateUserData data true = Ok [lit "Name is required"]
  /\ app [] sample_env (POST_users data)
     = (json 400 (VObj [(lit "errors", VArr [VStr (lit "Name is required")])]),
        [])
  /\ status (fst (app [] sample_env (POST_users data))) <> 500.
Proof. repeat split. discriminate. Qed.

(** *** Empty strings on update *)

(** PUT on a stored user, with a body that passes the validator and has a
    falsy email, is accepted without a scan of the other users. *)
Lemma put_without_email_accepted
    (users : store) (e : env) (userId : jstring) (user : User) (data : value) :
  own_property users userId = Some user ->
  no_data data = false ->
  validateUserData data false = Ok [] ->
  truthy (field data (lit "email")) = false ->
  app users e (PUT_user userId data)
  = (let user' := update user e (field data (lit "name"))
                         (field data (lit "email")) (field data (lit "age")) in
     (json 200 (toDict user'), users_set users userId user')).
Proof.
  intros Hown Hdata Hvalid Hemail.
  unfold app, route, put_user, users_get.
  now rewrite Hown, Hdata, Hvalid, Hemail.
Qed.

(** C1, on the input that breaks it. For every stored user, PUT with the
    body [{name: ""}] is accepted with 200 and leaves the user stored with
    the empty string as name. *)
Theorem put_empty_name_accepted
    (users : store) (e : env) (userId : jstring) (user : User) :
  own_property users userId = Some user ->
  exists user',
    app users e (PUT_user userId empty_name)
    = (json 200 (toDict user'), users_set users userId user')
    /\ own_property (users_set users userId user') userId = Some user'
    /\ name user' = VStr [].
Proof.
  intros Hown.
  rewrite (put_without_email_accepted users e userId user empty_name Hown)
    by reflexivity.
  eexists. split; [reflexivity |].
  split; [apply own_property_users_set_same | reflexivity].
Qed.

Lemma put_empty_name_accepted_witness :
  exists user',
    app after_ann sample_env (PUT_user ann_id empty_name)
    = (json 200 (toDict user'), users_set after_ann ann_id user')
    /\ own_property (users_set after_ann ann_id user') ann_id = Some user'
    /\ name user' = VStr [].
Proof.
  apply (put_empty_name_accepted after_ann sample_env ann_id
           (ann_user ann_env (VNum (NZero false)))).
  reflexivity.
Defined.

(** C2, on the input that breaks it. For any two users stored under
    different ids, PUT with the body [{email: ""}] on the one and then on
    the other is accepted with 200 both times, and leaves the two stored
    with the same email string, the empty one. *)
Theorem put_empty_email_twice_accepted
    (users : store) (e1 e2 : env) (k1 k2 : jstring) (u1 u2 : User) :
  own_property users k1 = Some u1 ->
  own_property users k2 = Some u2 ->
  k1 <> k2 ->
  let first := app users e1 (PUT_user k1 empty_email) in
  let second := app (snd first) e2 (PUT_user k2 empty_email) in
  status (fst first) = 200
  /\ status (fst second) = 200
  /\ exists v1 v2,
       own_property (snd second) k1 = Some v1
       /\ own_property (snd second) k2 = Some v2
       /\ email v1 = VStr []
       /\ email v2 = VStr [].
Proof.
  intros H1 H2 Hne first second. subst second first.
  rewrite (put_without_email_accepted users e1 k1 u1 empty_email H1)
    by reflexivity.
  cbv zeta. cbn [fst snd].
  set (v1 := update u1 e1 _ _ _).
  assert (H2' : own_property (users_set users k1 v1) k2 = Some u2)
    by (rewrite own_property_users_set_other; auto).
  rewrite (put_without_email_accepted _ e2 k2 u2 empty_email H2')
    by reflexivity.
  cbv zeta. cbn [fst snd].
  set (v2 := update u2 e2 _ _ _).
  repeat split.
  exists v1, v2. repeat split.
  - rewrite own_property_users_set_other by auto.
    apply own_property_users_set_same.
  - apply own_property_users_set_same.
Qed.

Lemma put_empty_email_twice_accepted_witness :
  let first := app after_ann_and_bo sample_env (PUT_user ann_id empty_email) in
  let second := app (snd first) sample_env (PUT_user bo_id empty_email) in
  status (fst first) = 200
  /\ status (fst second) = 200
  /\ exists v1 v2,
       own_property (snd second) ann_id = Some v1
       /\ own_property (snd second) bo_id = Some v2
       /\ email v1 = VStr []
       /\ email v2 = VStr [].
Proof.
  apply (put_empty_email_twice_accepted after_ann_and_bo sample_env sample_env
           ann_id bo_id
           (ann_user ann_env (VNum (NZero false)))
           (new_User bo_env (VStr (lit "Bo")) (VStr (lit "bo@x.com"))
                     VUndefined)).
  - reflexivity.
  - reflexivity.
  - discriminate.
Defined.

(** *** The store invariant *)

Lemma own_property_In (users : store) k (u : User) :
  own_property users k = Some u -> In (k, u) users.
Proof.
  induction users as [|[k' u'] rest IH]; simpl; [discriminate |].
  destruct (jstring_eqb k' k) eqn:E.
  - apply jstring_eqb_eq in E. intros [= ->]. left. now subst.
  - auto.
Qed.

Lemma own_property_key (users : store) k (u : User) :
  own_property users k = Some u -> In k (keys users).
Proof.
  intros H. apply own_property_In in H.
  apply (in_map fst) in H. exact H.
Qed.

Lemma In_own_property (users : store) k (u : User) :
  NoDup (keys users) -> In (k, u) users -> own_property users k = Some u.
Proof.
  induction users as [|[k' u'] rest IH]; simpl; [intros _ [] |].
  intros Hnd Hin. inversion Hnd as [| ? ? Hnotin Hnd']; subst.
  destruct Hin as [[= -> ->] | Hin].
  - now rewrite jstring_eqb_refl.
  - destruct (jstring_eqb k' k) eqn:E; [| auto].
    apply jstring_eqb_eq in E; subst k'.
    apply (in_map fst) in Hin. contradiction.
Qed.

Lemma keys_users_set (users : store) k (u : User) k' :
  In k' (keys (users_set users k u)) -> k' = k \/ In k' (keys users).
Proof.
  induction users as [|[k0 u0] rest IH]; simpl.
  - intros [<- | []]. now left.
  - destruct (jstring_eqb k0 k) eqn:E; simpl.
    + intros [<- | H]; auto.
    + intros [<- | H]; auto. destruct (IH H); auto.
Qed.

Lemma NoDup_users_set (users : store) k (u : User) :
  NoDup (keys users) -> NoDup (keys (users_set users k u)).
Proof.
  induction users as [|[k0 u0] rest IH]; simpl.
  - intros _. constructor; [intros [] | constructor].
  - intros Hnd. inversion Hnd as [| ? ? Hnotin Hnd']; subst.
    destruct (jstring_eqb k0 k) eqn:E; simpl.
    + apply jstring_eqb_eq in E; subst k0. now constructor.
    + constructor; [| auto].
      intros Hin. apply keys_users_set in Hin as [-> | Hin].
      * now rewrite jstring_eqb_refl in E.
      * contradiction.
Qed.

Lemma keys_users_delete (users : store) k k' :
  In k' (keys (users_delete users k)) -> In k' (keys users).
Proof.
  induction users as [|[k0 u0] rest IH]; simpl; [auto |].
  destruct (jstring_eqb k0 k); simpl; intuition.
Qed.

Lemma NoDup_users_delete (users : store) k :
  NoDup (keys users) -> NoDup (keys (users_delete users k)).
Proof.
  induction users as [|[k0 u0] rest IH]; simpl; [auto |].
  intros Hnd. inversion Hnd as [| ? ? Hnotin Hnd']; subst.
  destruct (jstring_eqb k0 k); simpl; [assumption |].
  constructor; [| auto].
  intros Hin. now apply keys_users_delete in Hin.
Qed.

(** What is stored after a [delete] was stored before, under the same
    key. *)
Lemma own_property_users_delete (users : store) k k' (u : User) :
  NoDup (keys users) ->
  own_property (users_delete users k) k' = Some u ->
  k' <> k /\ own_property users k' = Some u.
Proof.
  induction users as [|[k0 u0] rest IH]; simpl; [discriminate |].
  intros Hnd. inversion Hnd as [| ? ? Hnotin Hnd']; subst.
  destruct (jstring_eqb k0 k) eqn:E; simpl.
  - apply jstring_eqb_eq in E; subst k0. intros H.
    assert (Hne : k' <> k).
    { intros ->. apply own_property_key in H. contradiction. }
    split; [assumption |].
    now rewrite (jstring_eqb_neq k k') by auto.
  - destruct (jstring_eqb k0 k') eqn:E'.
    + apply jstring_eqb_eq in E'; subst k0. intros [= ->]. split; [| reflexivity].
      intros ->. now rewrite jstring_eqb_refl in E.
    + auto.
Qed.

(** [user.update] keeps the id, and replaces the name and the email by the
    arguments that are neither [undefined] nor [null]. *)
Lemma id_update (u : User) (e : env) (n m a : value) :
  id (update u e n m a) = id u.
Proof. destruct n, m, a; reflexivity. Qed.

Lemma name_update (u : User) (e : env) (n m a : value) :
  name (update u e n m a)
  = match n with VUndefined | VNull => name u | _ => n end.
Proof. destruct n, m, a; reflexivity. Qed.

Lemma email_update (u : User) (e : env) (n m a : value) :
  email (update u e n m a)
  = match m with VUndefined | VNull => email u | _ => m end.
Proof. destruct n, m, a; reflexivity. Qed.

(** A body the validator accepts has no truthy non-string name or email,
    and its name and email checks report nothing. *)
Lemma accepted_body (data : value) (requireAll : bool) :
  validateUserData data requireAll = Ok [] ->
  truthy_non_string (field data (lit "name")) = false
  /\ truthy_non_string (field data (lit "email")) = false
  /\ name_errors requireAll (field data (lit "name")) = []
  /\ email_errors requireAll (field data (lit "email")) = [].
Proof.
  intros H.
  destruct (truthy_non_string (field data (lit "name"))) eqn:Hn.
  { rewrite validateUserData_throws in H by (rewrite Hn; reflexivity).
    discriminate. }
  destruct (truthy_non_string (field data (lit "email"))) eqn:Hm.
  { rewrite validateUserData_throws in H
      by (rewrite Hm; apply orb_true_r).
    discriminate. }
  rewrite validateUserData_checks in H by assumption.
  destruct (age_report _) as [report |]; simpl in H; [| discriminate].
  injection H as H.
  apply app_eq_nil in H as [H1 H]. apply app_eq_nil in H as [H2 _].
  auto.
Qed.

(** An accepted name that is a non-empty string does not trim to the empty
    string. *)
Lemma accepted_name (data : value) (requireAll : bool) (s : jstring) :
  validateUserData data requireAll = Ok [] ->
  field data (lit "name") = VStr s ->
  s <> [] ->
  trim s <> [].
Proof.
  intros H Hf Hs. apply accepted_body in H as (_ & _ & H & _).
  rewrite Hf in H. destruct s as [|c s]; [contradiction |].
  simpl in H. destruct (trim (c :: s)); [discriminate H | discriminate].
Qed.

(** An accepted email that is truthy is a string with an [@]. *)
Lemma accepted_email (data : value) (requireAll : bool) :
  validateUserData data requireAll = Ok [] ->
  truthy (field data (lit "email")) = true ->
  exists s, field data (lit "email") = VStr s /\ includes s 64%N = true.
Proof.
  intros H Ht. apply accepted_body in H as (_ & Hm & _ & H).
  unfold truthy_non_string in Hm. rewrite Ht in Hm.
  destruct (field data (lit "email")) as [| |b|x|[|c s]|l|l];
    try discriminate.
  exists (c :: s). split; [reflexivity |].
  simpl in H. destruct (trim (c :: s)); [discriminate H |].
  destruct (includes (c :: s) 64); [reflexivity | discriminate H].
Qed.

(** In creation mode an accepted body has a truthy name and email. *)
Lemma accepted_creation (data : value) :
  validateUserData data true = Ok [] ->
  truthy (field data (lit "name")) = true
  /\ truthy (field data (lit "email")) = true.
Proof.
  intros H. apply accepted_body in H as (_ & _ & Hn & Hm). split.
  - destruct (field data (lit "name")) as [| |[|]|[?|? ? ?|?]|[|c s]|l|l];
      try reflexivity; discriminate Hn.
  - destruct (field data (lit "email")) as [| |[|]|[?|? ? ?|?]|[|c s]|l|l];
      try reflexivity; discriminate Hm.
Qed.

Lemma existsb_false_In {A} (f : A -> bool) (l : list A) (x : A) :
  existsb f l = false -> In x l -> f x = false.
Proof.
  intros H Hin. destruct (f x) eqn:E; [| reflexivity].
  assert (Hex : existsb f l = true) by (apply existsb_exists; eauto).
  congruence.
Qed.

Lemma not_strict_equals_string (v : value) (s : jstring) :
  strict_equals v (VStr s) = false -> v <> VStr s.
Proof.
  intros H ->. simpl in H. now rewrite jstring_eqb_refl in H.
Qed.

Lemma own_property_users_set_cases (users : store) k (u : User) k0 u0 :
  own_property (users_set users k u) k0 = Some u0 ->
  (k0 = k /\ u0 = u) \/ (k0 <> k /\ own_property users k0 = Some u0).
Proof.
  intros H. destruct (jstring_eqb k0 k) eqn:E.
  - apply jstring_eqb_eq in E; subst k0.
    rewrite own_property_users_set_same in H. injection H as <-. auto.
  - assert (Hne : k0 <> k) by (intros ->; now rewrite jstring_eqb_refl in E).
    rewrite own_property_users_set_other in H by assumption. auto.
Qed.

Lemma store_ok_nil : store_ok [].
Proof.
  constructor; simpl; try discriminate. constructor.
Qed.

(** Storing a user under its id keeps the invariant when the user's own
    fields are in order and its email differs from every other user's, as
    far as one of the two is truthy. *)
Lemma store_ok_set (users : store) (k : jstring) (u : User) :
  store_ok users ->
  id u = k ->
  (forall s, name u = VStr s -> s <> [] -> trim s <> []) ->
  (truthy (email u) = true ->
   exists s, email u = VStr s /\ includes s 64%N = true) ->
  (forall k2 u2, own_property users k2 = Some u2 -> k2 <> k ->
                 truthy (email u) = true \/ truthy (email u2) = true ->
                 email u <> email u2) ->
  store_ok (users_set users k u).
Proof.
  intros [Hkeys Hids Hemails Hformat Hnames] Hid Hname Hemail Hfresh.
  constructor.
  - now apply NoDup_users_set.
  - intros k0 u0 H.
    apply own_property_users_set_cases in H as [[-> ->] | [_ H]]; eauto.
  - intros k1 k2 u1 u2 H1 H2 Hne Ht.
    apply own_property_users_set_cases in H1 as [[-> ->] | [Hk1 H1]];
      apply own_property_users_set_cases in H2 as [[-> ->] | [Hk2 H2]].
    + contradiction.
    + eapply Hfresh; eauto.
    + intros Heq. eapply Hfresh; eauto.
    + eapply Hemails; eauto.
  - intros k0 u0 H Ht.
    apply own_property_users_set_cases in H as [[-> ->] | [_ H]]; eauto.
  - intros k0 u0 s H.
    apply own_property_users_set_cases in H as [[-> ->] | [_ H]]; eauto.
Qed.

Lemma store_ok_delete (users : store) (k : jstring) :
  store_ok users -> store_ok (users_delete users k).
Proof.
  intros [Hkeys Hids Hemails Hformat Hnames].
  constructor.
  - now apply NoDup_users_delete.
  - intros k0 u0 H. apply own_property_users_delete in H as [_ H]; eauto.
  - intros k1 k2 u1 u2 H1 H2.
    apply own_property_users_delete in H1 as [_ H1]; auto.
    apply own_property_users_delete in H2 as [_ H2]; auto.
    eauto.
  - intros k0 u0 H. apply own_property_users_delete in H as [_ H]; eauto.
  - intros k0 u0 s H. apply own_property_users_delete in H as [_ H]; eauto.
Qed.

Lemma truthy_differ (a b : value) :
  truthy a = false -> truthy b = true -> a <> b.
Proof. intros Ha Hb ->. congruence. Qed.

(** Two users stored under different ids have different emails as soon as
    one of the two emails is truthy. *)
Lemma stored_emails_differ (users : store) k1 k2 (u1 u2 : User) :
  store_ok users ->
  own_property users k1 = Some u1 ->
  own_property users k2 = Some u2 ->
  k1 <> k2 ->
  truthy (email u1) = true \/ truthy (email u2) = true ->
  email u1 <> email u2.
Proof.
  intros Hok H1 H2 Hne [Ht | Ht].
  - exact (ok_emails users Hok k1 k2 u1 u2 H1 H2 Hne Ht).
  - apply not_eq_sym.
    exact (ok_emails users Hok k2 k1 u2 u1 H2 H1 (not_eq_sym Hne) Ht).
Qed.

Lemma post_users_preserves_store_ok (users : store) (e : env) (data : value) :
  store_ok users -> store_ok (snd (post_users users e data)).
Proof.
  intros Hok. unfold post_users.
  destruct (no_data data); [assumption |].
  destruct (validateUserData data true) as [[| msg errors] |] eqn:Hv;
    simpl; try assumption.
  destruct (existsb _ _) eqn:Hscan; simpl; [assumption |].
  destruct (accepted_creation data Hv) as [_ Htruthy].
  destruct (accepted_email data true Hv Htruthy) as (s & Hs & Hat).
  apply store_ok_set; simpl; auto.
  - intros s'. now apply (accepted_name data true).
  - intros _. eauto.
  - intros k2 u2 H2 _ _. rewrite Hs. apply not_eq_sym.
    apply not_strict_equals_string. rewrite <- Hs.
    apply (existsb_false_In _ _ u2 Hscan).
    apply own_property_In in H2. now apply (in_map snd) in H2.
Qed.

Lemma put_user_preserves_store_ok
    (users : store) (e : env) (userId : jstring) (data : value) :
  store_ok users -> store_ok (snd (put_user users e userId data)).
Proof.
  intros Hok. unfold put_user, users_get.
  destruct (own_property users userId) as [user |] eqn:Hown.
  2: { destruct (existsb _ Object_prototype); [| assumption].
       destruct (no_data data); [assumption |].
       destruct (validateUserData data false) as [[| msg errors] |];
         simpl; try assumption.
       destruct (_ && _); assumption. }
  destruct (no_data data); [assumption |].
  destruct (validateUserData data false) as [[| msg errors] |] eqn:Hv;
    simpl; try assumption.
  destruct (truthy (field data (lit "email")) && _) eqn:Hscan;
    simpl; [assumption |].
  destruct Hok as [Hkeys Hids Hemails Hformat Hnames].
  apply store_ok_set; [constructor; assumption | | | |].
  - rewrite id_update. eauto.
  - intros s. rewrite name_update.
    destruct (field data (lit "name")) eqn:Hn; try discriminate; eauto.
    intros [= ->]. now apply (accepted_name data false).
  - rewrite email_update.
    destruct (field data (lit "email")) eqn:Hm;
      try (now apply (Hformat userId));
      intros Ht; rewrite <- Hm; rewrite <- Hm in Ht;
      exact (accepted_email data false Hv Ht).
  - intros k2 u2 H2 Hne Ht. rewrite email_update in *.
    destruct (truthy (field data (lit "email"))) eqn:Hm.
    + destruct (accepted_email data false Hv Hm) as (s & Hs & _).
      rewrite Hs. apply not_eq_sym, not_strict_equals_string.
      rewrite <- Hs. simpl in Hscan.
      apply own_property_In in H2.
      apply (existsb_false_In _ _ (k2, u2) Hscan) in H2. simpl in H2.
      now rewrite (jstring_eqb_neq k2 userId Hne) in H2.
    + destruct (field data (lit "email")) eqn:Hfield;
        try (apply (stored_emails_differ users userId k2); auto;
             constructor; assumption);
        (destruct Ht as [Ht | Ht]; [congruence |]);
        apply truthy_differ; assumption.
Qed.

(** Every request keeps the store invariant. *)
Theorem app_preserves_store_ok (users : store) (e : env) (req : request) :
  store_ok users -> store_ok (snd (app users e req)).
Proof.
  intros Hok.
  assert (H : store_ok (snd (route users e req))).
  { destruct req; simpl; try assumption.
    - now apply post_users_preserves_store_ok.
    - unfold get_user. repeat branch; assumption.
    - now apply put_user_preserves_store_ok.
    - unfold delete_user. destruct (users_get users userId); simpl;
        [now apply store_ok_delete | assumption]. }
  unfold app. destruct (route users e req) as [[res | x] users']; exact H.
Qed.

(** The invariant holds of every store the server can reach from the empty
    one. *)
Theorem reachable_store_ok (reqs : list (env * request)) :
  store_ok (serve [] reqs).
Proof.
  generalize store_ok_nil. generalize (@nil (jstring * User)).
  induction reqs as [| [e req] rest IH]; intros users Hok; simpl; auto.
  apply IH. now apply app_preserves_store_ok.
Qed.

(** *** The two uniqueness scans *)

(** On insert the scan covers every record: a validated body whose email is
    the email of any stored user is answered 409, and nothing is stored. *)
Lemma post_email_in_use_409
    (users : store) (e : env) (data : value) (user : User) :
  no_data data = false ->
  validateUserData data true = Ok [] ->
  In user (Object_values users) ->
  strict_equals (email user) (field data (lit "email")) = true ->
  app users e (POST_users data)
  = (json 409 (error_body (lit "Email already exists")), users).
Proof.
  intros Hdata Hv Hin Heq. unfold app, route, post_users.
  rewrite Hdata, Hv. simpl.
  assert (Hscan : existsb (fun user => strict_equals (email user)
                                         (field data (lit "email")))
                          (Object_values users) = true)
    by (apply existsb_exists; eauto).
  now rewrite Hscan.
Qed.

(** On update the scan covers every record but the one updated: a truthy
    email held by a user stored under another id is answered 409. *)
Lemma put_email_in_use_409
    (users : store) (e : env) (userId : jstring) (data : value)
    (user : User) (k : jstring) (other : User) :
  own_property users userId = Some user ->
  no_data data = false ->
  validateUserData data false = Ok [] ->
  truthy (field data (lit "email")) = true ->
  In (k, other) (Object_entries users) ->
  k <> userId ->
  strict_equals (email other) (field data (lit "email")) = true ->
  app users e (PUT_user userId data)
  = (json 409 (error_body (lit "Email already exists")), users).
Proof.
  intros Hown Hdata Hv Ht Hin Hne Heq. unfold app, route, put_user, users_get.
  rewrite Hown, Hdata, Hv, Ht. simpl.
  assert (Hscan :
    existsb (fun entry => negb (jstring_eqb (fst entry) userId)
                          && strict_equals (email (snd entry))
                                           (field data (lit "email")))
            (Object_entries users) = true).
  { apply existsb_exists. exists (k, other). split; [assumption |].
    simpl. now rewrite (jstring_eqb_neq k userId Hne), Heq. }
  now rewrite Hscan.
Qed.

(** ... and the record's own email is no obstacle: in a store the server
    can be in, a validated update that repeats the user's current email is
    answered 200. *)
Lemma put_own_email_accepted
    (users : store) (e : env) (userId : jstring) (data : value) (user : User) :
  store_ok users ->
  own_property users userId = Some user ->
  no_data data = false ->
  validateUserData data false = Ok [] ->
  truthy (field data (lit "email")) = true ->
  field data (lit "email") = email user ->
  status (fst (app users e (PUT_user userId data))) = 200.
Proof.
  intros Hok Hown Hdata Hv Ht Hsame. unfold app, route, put_user, users_get.
  rewrite Hown, Hdata, Hv, Ht. simpl.
  assert (Hscan :
    existsb (fun entry => negb (jstring_eqb (fst entry) userId)
                          && strict_equals (email (snd entry))
                                           (field data (lit "email")))
            (Object_entries users) = false).
  { apply existsb_false. intros [k other] Hin. simpl.
    destruct (jstring_eqb k userId) eqn:E; [reflexivity |]. simpl.
    assert (Hne : k <> userId)
      by (intros ->; now rewrite jstring_eqb_refl in E).
    apply (In_own_property users k other (ok_keys users Hok)) in Hin.
    destruct (accepted_email data false Hv Ht) as (s & Hs & _).
    rewrite Hs.
    destruct (strict_equals (email other) (VStr s)) eqn:Heq; [| reflexivity].
    apply strict_equals_string in Heq.
    exfalso.
    apply (stored_emails_differ users userId k user other Hok Hown Hin
             (not_eq_sym Hne)).
    - left. now rewrite <- Hsame.
    - congruence. }
  now rewrite Hscan.
Qed.

(** *** Numeric ages *)

(** The decimal digits of a positive integer start with a digit from 1 to
    9. *)
Lemma pos_digits_head (p : positive) :
  exists d tl, pos_digits p = d :: tl /\ (1 <= d <= 9)%N.
Proof.
  unfold pos_digits.
  assert (Hnorm : Decimal.unorm (Pos.to_uint p) = Pos.to_uint p).
  { rewrite <- (DecimalPos.Unsigned.to_of (Pos.to_uint p)).
    now rewrite DecimalPos.Unsigned.of_to. }
  assert (Hhead : Decimal.nzhead (Pos.to_uint p) = Pos.to_uint p).
  { rewrite <- Hnorm at 2. symmetry. apply DecimalFacts.unorm_nzhead.
    intros Hnil. apply (DecimalPos.Unsigned.to_uint_nonzero p).
    rewrite <- Hnorm. now apply DecimalFacts.unorm_0. }
  pose proof (DecimalPos.Unsigned.to_uint_nonnil p) as Hnonnil.
  destruct (Pos.to_uint p) as [|u|u|u|u|u|u|u|u|u|u] eqn:E;
    [contradiction | | | | | | | | | |].
  1: { exfalso. exact (DecimalFacts.nzhead_nonzero _ _ Hhead). }
  all: simpl; eexists; eexists; (split; [reflexivity | lia]).
Qed.

Lemma drop_zeros_snoc (l : list N) (d : N) :
  d <> 0%N -> exists y, drop_zeros (l ++ [d]) = y ++ [d].
Proof.
  intros Hd. induction l as [| x l IH]; simpl.
  - exists []. destruct d as [| q]; [contradiction | reflexivity].
  - destruct x as [| q]; [exact IH |]. now exists (N.pos q :: l).
Qed.

(** Dropping the trailing zeros keeps a non-zero leading digit. *)
Lemma significant_head (d : N) (tl : list N) :
  d <> 0%N -> exists tl', significant (d :: tl) = d :: tl'.
Proof.
  intros Hd. unfold significant. simpl rev.
  destruct (drop_zeros_snoc (rev tl) d Hd) as [y ->].
  rewrite rev_app_distr. simpl. now exists (rev y).
Qed.

(** A number of magnitude 1 or more prints as an optional minus sign and a
    digit from 1 to 9, followed by the rest. *)
Lemma NumberToString_leading_digit (neg : bool) (s : positive) (e : Z) :
  (1 <= e + Z.of_nat (length (pos_digits s)))%Z ->
  exists d rest,
    (1 <= d <= 9)%N
    /\ NumberToString (NFinite neg s e)
       = (if neg then lit "-" else []) ++ digit_char d :: rest.
Proof.
  intros Hn. unfold NumberToString.
  destruct (pos_digits_head s) as (d & tl & Hs & Hd). rewrite Hs in *.
  destruct (significant_head d tl) as [tl' ->]; [lia |].
  set (n := (e + Z.of_nat (length (d :: tl)))%Z) in *.
  exists d. cbn [map].
  set (k := Z.of_nat (length (digit_char d :: map digit_char tl'))).
  destruct ((k <=? n)%Z && (n <=? 21)%Z).
  { eexists. split; [assumption |]. cbn [app]. reflexivity. }
  destruct ((0 <? n)%Z && (n <=? 21)%Z).
  { destruct (Z.to_nat n) as [| m] eqn:Em; [lia |].
    eexists. split; [assumption |]. cbn [firstn app]. reflexivity. }
  destruct ((-6 <? n)%Z && (n <=? 0)%Z) eqn:Hsmall.
  { apply andb_true_iff in Hsmall as [_ Hsmall]. apply Z.leb_le in Hsmall.
    lia. }
  destruct (map digit_char tl'); eexists; (split; [assumption |]);
    cbn [app]; reflexivity.
Qed.

Lemma read_digits_positive (s : jstring) (a : N) :
  (0 < a)%N -> exists m, read_digits 10 s (Some a) = Some m /\ (0 < m)%N.
Proof.
  revert a. induction s as [| c s IH]; intros a Ha; simpl.
  - eauto.
  - destruct (digit_value 10 c) as [d |]; [| eauto].
    apply IH. lia.
Qed.

(** [parseInt] reads such a string as an integer of the same sign and of
    magnitude 1 or more. *)
Lemma parseInt_string_leading_digit (neg : bool) (d : N) (rest : jstring) :
  (1 <= d <= 9)%N ->
  exists m,
    parseInt_string ((if neg then lit "-" else []) ++ digit_char d :: rest)
    = Int neg m
    /\ (0 < m)%N.
Proof.
  intros Hd.
  assert (Hcases : (d = 1 \/ d = 2 \/ d = 3 \/ d = 4 \/ d = 5 \/ d = 6
                    \/ d = 7 \/ d = 8 \/ d = 9)%N) by lia.
  assert (Hread : forall a, (0 < a)%N ->
            exists m, read_digits 10 rest (Some a) = Some m /\ (0 < m)%N)
    by (intros a; apply read_digits_positive).
  unfold parseInt_string.
  change (lit "-") with [45%N].
  destruct Hcases as [-> | [-> | [-> | [-> | [-> | [-> | [-> | [-> | ->]]]]]]]];
    destruct neg; cbn -[read_digits]; simpl read_digits;
    match goal with
    | |- context [read_digits 10 rest (Some ?a)] =>
        destruct (Hread a) as (m & -> & Hm); [lia | eauto]
    end.
Qed.

(** A numeric age of magnitude 1 or more is rejected exactly when it is
    negative. *)
Theorem numeric_age_verdict (neg : bool) (s : positive) (e : Z) :
  (1 <= e + Z.of_nat (length (pos_digits s)))%Z ->
  age_errors (VNum (NFinite neg s e))
  = if neg then [lit "Age must be a positive number"] else [].
Proof.
  intros Hn. unfold age_errors.
  destruct (NumberToString_leading_digit neg s e Hn) as (d & rest & Hd & ->).
  destruct (parseInt_string_leading_digit neg d rest Hd) as (m & -> & Hm).
  unfold age_verdict. simpl.
  apply N.ltb_lt in Hm. destruct neg; [now rewrite Hm | reflexivity].
Qed.

(** In particular an integer age other than zero, whatever its size: the
    age [digits * 10^exponent] with a sign. *)
Corollary integer_age_verdict (neg : bool) (s : positive) (e : Z) :
  (0 <= e)%Z ->
  age_errors (VNum (NFinite neg s e))
  = if neg then [lit "Age must be a positive number"] else [].
Proof.
  intros He. apply numeric_age_verdict.
  destruct (pos_digits_head s) as (d & tl & -> & _). simpl length. lia.
Qed.

(** Zero, of either sign, is accepted. *)
Lemma zero_age_verdict (neg : bool) : age_errors (VNum (NZero neg)) = [].
Proof. reflexivity. Qed.

(* ================================================================== *)
(** *** More on the store operations *)
(* ================================================================== *)

Lemma own_property_users_delete_other (users : store) k k' :
  k' <> k -> own_property (users_delete users k) k' = own_property users k'.
Proof.
  intros Hne. induction users as [|[k0 u0] rest IH]; simpl; [reflexivity |].
  destruct (jstring_eqb k0 k) eqn:E; simpl.
  - apply jstring_eqb_eq in E; subst k0.
    now rewrite (jstring_eqb_neq k k') by auto.
  - now rewrite IH.
Qed.

(** [delete] takes out the first entry under the key and keeps the rest in
    order. *)
Lemma users_delete_split (users : store) k (u : User) :
  own_property users k = Some u ->
  exists before after,
    users = before ++ (k, u) :: after
    /\ own_property before k = None
    /\ users_delete users k = before ++ after.
Proof.
  induction users as [|[k0 u0] rest IH]; simpl; [discriminate |].
  destruct (jstring_eqb k0 k) eqn:E.
  - apply jstring_eqb_eq in E; subst k0. intros [= ->].
    now exists [], rest.
  - intros H. destruct (IH H) as (before & after & -> & Hb & Hd).
    exists ((k0, u0) :: before), after. simpl. rewrite E, Hd. auto.
Qed.

Lemma users_delete_absent (users : store) k :
  own_property users k = None -> users_delete users k = users.
Proof.
  induction users as [|[k0 u0] rest IH]; simpl; [reflexivity |].
  destruct (jstring_eqb k0 k); [discriminate |].
  intros H. now rewrite IH.
Qed.

(** An assignment under a new key appends; under a stored key it replaces
    in place. *)
Lemma users_set_fresh (users : store) k (u : User) :
  own_property users k = None -> users_set users k u = users ++ [(k, u)].
Proof.
  induction users as [|[k0 u0] rest IH]; simpl; [reflexivity |].
  destruct (jstring_eqb k0 k); [discriminate |].
  intros H. now rewrite IH.
Qed.

Lemma users_set_stored (users : store) k (u0 u : User) :
  own_property users k = Some u0 ->
  exists before after,
    users = before ++ (k, u0) :: after
    /\ own_property before k = None
    /\ users_set users k u = before ++ (k, u) :: after.
Proof.
  induction users as [|[k0 u1] rest IH]; simpl; [discriminate |].
  destruct (jstring_eqb k0 k) eqn:E.
  - apply jstring_eqb_eq in E; subst k0. intros [= ->].
    now exists [], rest.
  - intros H. destruct (IH H) as (before & after & -> & Hb & Hs).
    exists ((k0, u1) :: before), after. simpl. rewrite E, Hs. auto.
Qed.

Lemma keys_users_set_stored (users : store) k (u0 u : User) :
  own_property users k = Some u0 -> keys (users_set users k u) = keys users.
Proof.
  intros H. destruct (users_set_stored users k u0 u H)
    as (before & after & -> & _ & ->).
  unfold keys. now rewrite !map_app.
Qed.

(** *** Generated keys *)

Lemma generated_keys_nil : generated_keys [].
Proof. intros k []. Qed.

Lemma app_preserves_generated_keys (users : store) (e : env) (req : request) :
  generated_keys users -> generated_keys (snd (app users e req)).
Proof.
  intros Hgen.
  assert (H : generated_keys (snd (route users e req))).
  { destruct req; simpl; try assumption.
    - unfold post_users. repeat branch; try assumption.
      intros k Hin. apply keys_users_set in Hin as [-> | Hin]; eauto.
    - unfold get_user. repeat branch; assumption.
    - unfold put_user, users_get.
      destruct (own_property users userId) as [user |] eqn:Hown.
      + repeat branch; try assumption.
        intros k Hin. apply keys_users_set in Hin as [-> | Hin]; auto.
        apply Hgen. eapply own_property_key; eassumption.
      + repeat branch; assumption.
    - unfold delete_user. destruct (users_get users userId); simpl;
        [| assumption].
      intros k Hin. apply keys_users_delete in Hin. auto. }
  unfold app. destruct (route users e req) as [[res | x] users']; exact H.
Qed.

Lemma reachable_generated_keys (reqs : list (env * request)) :
  generated_keys (serve [] reqs).
Proof.
  generalize generated_keys_nil. generalize (@nil (jstring * User)).
  induction reqs as [| [e req] rest IH]; intros users Hgen; simpl; auto.
  apply IH. now apply app_preserves_generated_keys.
Qed.

Lemma stored_key_not_inherited (users : store) k (u : User) :
  generated_keys users ->
  own_property users k = Some u ->
  existsb (jstring_eqb k) Object_prototype = false.
Proof.
  intros Hgen H. apply own_property_key in H.
  destruct (Hgen k H) as [r ->]. apply uuidv4_not_inherited.
Qed.

(** *** Reading, deleting, and ids that do not resolve *)

(** X1. In every store the server can reach from the empty one, deleting a
    stored user answers 200 "User deleted successfully", and from then on
    GET, PUT (whatever the body) and DELETE on that id answer 404 "User not
    found" and leave the store alone. *)
Theorem deleted_user_is_gone
    (reqs : list (env * request)) (userId : jstring) (user : User)
    (e e' : env) (data : value) :
  own_property (serve [] reqs) userId = Some user ->
  let users := serve [] reqs in
  let users' := users_delete users userId in
  app users e (DELETE_user userId)
  = (json 200 (message_body (lit "User deleted successfully")), users')
  /\ app users' e' (GET_user userId)
     = (json 404 (error_body (lit "User not found")), users')
  /\ app users' e' (PUT_user userId data)
     = (json 404 (error_body (lit "User not found")), users')
  /\ app users' e' (DELETE_user userId)
     = (json 404 (error_body (lit "User not found")), users').
Proof.
  intros Hown users users'.
  pose proof (reachable_store_ok reqs) as Hok.
  pose proof (reachable_generated_keys reqs) as Hgen.
  fold users in Hown, Hok, Hgen.
  assert (Hgone : users_get users' userId = None).
  { unfold users_get.
    destruct (own_property users' userId) as [u' |] eqn:E.
    - apply own_property_users_delete in E as [Hne _];
        [contradiction | exact (ok_keys users Hok)].
    - now rewrite (stored_key_not_inherited users userId user Hgen Hown). }
  repeat split.
  - unfold app, route, delete_user, users_get. now rewrite Hown.
  - unfold app, route, get_user. now rewrite Hgone.
  - unfold app, route, put_user. now rewrite Hgone.
  - unfold app, route, delete_user. now rewrite Hgone.
Qed.

Lemma deleted_user_is_gone_witness :
  let users := serve [] [(ann_env, POST_users ann)] in
  let users' := users_delete users ann_id in
  app users sample_env (DELETE_user ann_id)
  = (json 200 (message_body (lit "User deleted successfully")), users')
  /\ app users' sample_env (GET_user ann_id)
     = (json 404 (error_body (lit "User not found")), users')
  /\ app users' sample_env (PUT_user ann_id age_five)
     = (json 404 (error_body (lit "User not found")), users')
  /\ app users' sample_env (DELETE_user ann_id)
     = (json 404 (error_body (lit "User not found")), users').
Proof.
  apply (deleted_user_is_gone [(ann_env, POST_users ann)] ann_id
           (ann_user ann_env (VNum (NZero false)))
           sample_env sample_env age_five).
  reflexivity.
Defined.

(** X2. DELETE of a stored user takes exactly that user's entry out of the
    store: the users before it and after it stay, in their order, so a
    following GET /users lists them and no one else. *)
Theorem delete_removes_one_entry
    (users : store) (e e' : env) (userId : jstring) (user : User) :
  own_property users userId = Some user ->
  exists before after,
    users = before ++ (userId, user) :: after
    /\ own_property before userId = None
    /\ snd (app users e (DELETE_user userId)) = before ++ after
    /\ fst (app (before ++ after) e' GET_users)
       = json 200 (VArr (map toDict (Object_values before)
                         ++ map toDict (Object_values after))).
Proof.
  intros Hown.
  destruct (users_delete_split users userId user Hown)
    as (before & after & Husers & Hbefore & Hdelete).
  exists before, after. repeat split; try assumption.
  - unfold app, route, delete_user, users_get. now rewrite Hown.
  - unfold app, route, get_users, Object_values. simpl.
    now rewrite !map_app.
Qed.

Lemma delete_removes_one_entry_witness :
  exists before after,
    after_ann_and_bo
    = before ++ (ann_id, ann_user ann_env (VNum (NZero false))) :: after
    /\ own_property before ann_id = None
    /\ snd (app after_ann_and_bo sample_env (DELETE_user ann_id))
       = before ++ after
    /\ fst (app (before ++ after) sample_env GET_users)
       = json 200 (VArr (map toDict (Object_values before)
                         ++ map toDict (Object_values after))).
Proof.
  apply (delete_removes_one_entry after_ann_and_bo sample_env sample_env
           ann_id (ann_user ann_env (VNum (NZero false)))).
  reflexivity.
Defined.

(** X3. On an id that is neither stored nor a property name of
    [Object.prototype], GET, PUT (whatever the body) and DELETE all answer
    404 "User not found" and leave the store alone. *)
Theorem unknown_id_answers_404
    (users : store) (e : env) (userId : jstring) (data : value) :
  own_property users userId = None ->
  existsb (jstring_eqb userId) Object_prototype = false ->
  app users e (GET_user userId)
  = (json 404 (error_body (lit "User not found")), users)
  /\ app users e (PUT_user userId data)
     = (json 404 (error_body (lit "User not found")), users)
  /\ app users e (DELETE_user userId)
     = (json 404 (error_body (lit "User not found")), users).
Proof.
  intros Hown Hproto.
  assert (Hget : users_get users userId = None)
    by (unfold users_get; now rewrite Hown, Hproto).
  unfold app, route, get_user, put_user, delete_user.
  now rewrite Hget.
Qed.

Lemma unknown_id_answers_404_witness :
  app after_ann sample_env (GET_user bo_id)
  = (json 404 (error_body (lit "User not found")), after_ann)
  /\ app after_ann sample_env (PUT_user bo_id age_five)
     = (json 404 (error_body (lit "User not found")), after_ann)
  /\ app after_ann sample_env (DELETE_user bo_id)
     = (json 404 (error_body (lit "User not found")), after_ann).
Proof.
  apply (unknown_id_answers_404 after_ann sample_env bo_id age_five);
    reflexivity.
Defined.

(** X4. On an id that is a property name of [Object.prototype] and not a
    stored key, [users[userId]] is the inherited property: GET throws on
    [user.toDict] and is answered 500, and DELETE answers 200 "User deleted
    successfully" although nothing is removed. *)
Theorem inherited_id_get_500_delete_200
    (users : store) (e : env) (userId : jstring) :
  own_property users userId = None ->
  existsb (jstring_eqb userId) Object_prototype = true ->
  app users e (GET_user userId)
  = (json 500 (error_body (lit "Internal server error")), users)
  /\ app users e (DELETE_user userId)
     = (json 200 (message_body (lit "User deleted successfully")), users).
Proof.
  intros Hown Hproto.
  assert (Hget : users_get users userId = Some Inherited)
    by (unfold users_get; now rewrite Hown, Hproto).
  unfold app, route, get_user, delete_user. rewrite Hget. simpl.
  now rewrite (users_delete_absent users userId Hown).
Qed.

Lemma inherited_id_get_500_delete_200_witness :
  app after_ann sample_env (GET_user (lit "toString"))
  = (json 500 (error_body (lit "Internal server error")), after_ann)
  /\ app after_ann sample_env (DELETE_user (lit "toString"))
     = (json 200 (message_body (lit "User deleted successfully")), after_ann).
Proof.
  apply (inherited_id_get_500_delete_200 after_ann sample_env (lit "toString"));
    reflexivity.
Defined.

(** *** Creating *)

(** What a 201 tells about a POST: the body was there, the validator
    accepted it, the scan found no user with its email, and the new user was
    stored under its generated id. *)
Lemma post_created (users : store) (e : env) (data : value) :
  status (fst (app users e (POST_users data))) = 201 ->
  no_data data = false
  /\ validateUserData data true = Ok []
  /\ existsb (fun user => strict_equals (email user) (field data (lit "email")))
             (Object_values users) = false
  /\ app users e (POST_users data)
     = (let user := new_User e (field data (lit "name"))
                             (field data (lit "email"))
                             (field data (lit "age")) in
        (json 201 (toDict user), users_set users (uuidv4 (random e)) user)).
Proof.
  unfold app, route, post_users.
  destruct (no_data data); [discriminate |].
  destruct (validateUserData data true) as [[| msg errors] |];
    simpl; try discriminate.
  destruct (existsb _ _); simpl; [discriminate |].
  auto.
Qed.

(** X5. Whatever the store, a POST answered 201 can be read back: GET on
    the generated id answers 200 with the very body the POST returned. That
    body carries the generated id, the name and email of the request, the
    request's age or [null] when the age is absent or [null], and the two
    clock readings of the request as [created_at] and [updated_at]. *)
Theorem created_user_can_be_read
    (users : store) (e e' : env) (data : value) :
  status (fst (app users e (POST_users data))) = 201 ->
  let created := fst (app users e (POST_users data)) in
  let users' := snd (app users e (POST_users data)) in
  app users' e' (GET_user (uuidv4 (random e))) = (json 200 (body created), users')
  /\ field (body created) (lit "id") = VStr (uuidv4 (random e))
  /\ field (body created) (lit "name") = field data (lit "name")
  /\ field (body created) (lit "email") = field data (lit "email")
  /\ field (body created) (lit "age") = supplied (field data (lit "age")) VNull
  /\ field (body created) (lit "created_at") = VStr (now1 e)
  /\ field (body created) (lit "updated_at") = VStr (now2 e).
Proof.
  intros H. destruct (post_created users e data H) as (_ & _ & _ & ->).
  cbv zeta. cbn [fst snd body json].
  split.
  - unfold app, route, get_user, users_get.
    now rewrite own_property_users_set_same.
  - repeat split. now destruct (field data (lit "age")).
Qed.

Lemma created_user_can_be_read_witness :
  let created := fst (app [] ann_env (POST_users ann)) in
  let users' := snd (app [] ann_env (POST_users ann)) in
  app users' sample_env (GET_user (uuidv4 (random ann_env)))
  = (json 200 (body created), users')
  /\ field (body created) (lit "id") = VStr (uuidv4 (random ann_env))
  /\ field (body created) (lit "name") = field ann (lit "name")
  /\ field (body created) (lit "email") = field ann (lit "email")
  /\ field (body created) (lit "age") = supplied (field ann (lit "age")) VNull
  /\ field (body created) (lit "created_at") = VStr (now1 ann_env)
  /\ field (body created) (lit "updated_at") = VStr (now2 ann_env).
Proof.
  apply (created_user_can_be_read [] ann_env sample_env ann). reflexivity.
Defined.

(** X6. A POST answered 201 whose generated id is not yet a key adds the new
    user at the end of the store and touches no other entry: a following
    GET /users lists the users of before, in their order, and then the body
    the POST returned. *)
Theorem created_user_is_listed_last
    (users : store) (e e' : env) (data : value) :
  status (fst (app users e (POST_users data))) = 201 ->
  own_property users (uuidv4 (random e)) = None ->
  let created := fst (app users e (POST_users data)) in
  let users' := snd (app users e (POST_users data)) in
  keys users' = keys users ++ [uuidv4 (random e)]
  /\ (forall k, k <> uuidv4 (random e) ->
                own_property users' k = own_property users k)
  /\ fst (app users' e' GET_users)
     = json 200 (VArr (map toDict (Object_values users) ++ [body created])).
Proof.
  intros H Hfresh. destruct (post_created users e data H) as (_ & _ & _ & ->).
  cbv zeta. cbn [fst snd body json].
  rewrite (users_set_fresh users _ _ Hfresh).
  repeat split.
  - unfold keys. now rewrite map_app.
  - intros k Hk. rewrite <- (users_set_fresh users _ _ Hfresh).
    now apply own_property_users_set_other.
  - unfold app, route, get_users, Object_values. simpl.
    now rewrite !map_app.
Qed.

Lemma created_user_is_listed_last_witness :
  let created := fst (app after_ann bo_env (POST_users bo)) in
  let users' := snd (app after_ann bo_env (POST_users bo)) in
  keys users' = keys after_ann ++ [uuidv4 (random bo_env)]
  /\ (forall k, k <> uuidv4 (random bo_env) ->
                own_property users' k = own_property after_ann k)
  /\ fst (app users' sample_env GET_users)
     = json 200 (VArr (map toDict (Object_values after_ann) ++ [body created])).
Proof.
  apply (created_user_is_listed_last after_ann bo_env sample_env bo);
    reflexivity.
Defined.

(** X7. For a body that is there and passes the creation validator, POST
    answers 409 exactly when some stored user has the body's email, and 201
    otherwise; a 409 leaves the store as it was. *)
Theorem post_conflict_iff_email_stored
    (users : store) (e : env) (data : value) :
  no_data data = false ->
  validateUserData data true = Ok [] ->
  (status (fst (app users e (POST_users data))) = 409
   <-> exists user, In user (Object_values users)
                    /\ email user = field data (lit "email"))
  /\ (status (fst (app users e (POST_users data))) = 409
      \/ status (fst (app users e (POST_users data))) = 201)
  /\ (status (fst (app users e (POST_users data))) = 409 ->
      snd (app users e (POST_users data)) = users).
Proof.
  intros Hdata Hv.
  destruct (accepted_creation data Hv) as [_ Ht].
  destruct (accepted_email data true Hv Ht) as (s & Hs & _).
  unfold app, route, post_users. rewrite Hdata, Hv. simpl.
  destruct (existsb _ _) eqn:Hscan; simpl.
  - repeat split; auto.
    intros _. apply existsb_exists in Hscan as (user & Hin & Heq).
    exists user. split; [assumption |].
    rewrite Hs in *. now apply strict_equals_string.
  - repeat split; auto; try discriminate.
    intros (user & Hin & Heq). exfalso.
    apply (existsb_false_In _ _ user Hscan) in Hin. cbv beta in Hin.
    rewrite Heq, Hs in Hin. simpl in Hin.
    now rewrite jstring_eqb_refl in Hin.
Qed.

Lemma post_conflict_iff_email_stored_witness :
  (status (fst (app after_ann bo_env (POST_users ann_without_age))) = 409
   <-> exists user, In user (Object_values after_ann)
                    /\ email user = field ann_without_age (lit "email"))
  /\ (status (fst (app after_ann bo_env (POST_users ann_without_age))) = 409
      \/ status (fst (app after_ann bo_env (POST_users ann_without_age))) = 201)
  /\ (status (fst (app after_ann bo_env (POST_users ann_without_age))) = 409 ->
      snd (app after_ann bo_env (POST_users ann_without_age)) = after_ann).
Proof.
  apply (post_conflict_iff_email_stored after_ann bo_env ann_without_age);
    reflexivity.
Defined.

(** X8. After a POST answered 201, a second POST whose body passes the
    validator and carries the same email is answered 409 "Email already
    exists", and stores nothing. *)
Theorem second_post_same_email_409
    (users : store) (e e' : env) (data data' : value) :
  status (fst (app users e (POST_users data))) = 201 ->
  no_data data' = false ->
  validateUserData data' true = Ok [] ->
  field data' (lit "email") = field data (lit "email") ->
  let users' := snd (app users e (POST_users data)) in
  app users' e' (POST_users data')
  = (json 409 (error_body (lit "Email already exists")), users').
Proof.
  intros H Hdata' Hv' Hsame users'. subst users'.
  destruct (post_created users e data H) as (_ & Hv & _ & ->).
  cbv zeta. cbn [snd].
  set (user := new_User e _ _ _).
  apply (post_email_in_use_409 _ e' data' user Hdata' Hv').
  - unfold Object_values. apply in_map_iff. exists (uuidv4 (random e), user).
    split; [reflexivity |]. apply own_property_In.
    apply own_property_users_set_same.
  - rewrite Hsame. simpl.
    destruct (accepted_creation data Hv) as [_ Ht].
    destruct (accepted_email data true Hv Ht) as (s & -> & _).
    simpl. apply jstring_eqb_refl.
Qed.

Lemma second_post_same_email_409_witness :
  let users' := snd (app [] ann_env (POST_users ann)) in
  app users' bo_env (POST_users ann_without_age)
  = (json 409 (error_body (lit "Email already exists")), users').
Proof.
  apply (second_post_same_email_409 [] ann_env bo_env ann ann_without_age);
    reflexivity.
Defined.

(** *** Updating *)

Lemma age_update (u : User) (e : env) (n m a : value) :
  age (update u e n m a) = supplied a (age u).
Proof. destruct n, m, a; reflexivity. Qed.

Lemma created_at_update (u : User) (e : env) (n m a : value) :
  created_at (update u e n m a) = created_at u.
Proof. destruct n, m, a; reflexivity. Qed.

Lemma updated_at_update (u : User) (e : env) (n m a : value) :
  updated_at (update u e n m a) = now1 e.
Proof. destruct n, m, a; reflexivity. Qed.

(** What a 200 tells about a PUT on a stored user. *)
Lemma put_updated
    (users : store) (e : env) (userId : jstring) (user : User) (data : value) :
  own_property users userId = Some user ->
  status (fst (app users e (PUT_user userId data))) = 200 ->
  no_data data = false
  /\ validateUserData data false = Ok []
  /\ app users e (PUT_user userId data)
     = (let user' := update user e (field data (lit "name"))
                            (field data (lit "email"))
                            (field data (lit "age")) in
        (json 200 (toDict user'), users_set users userId user')).
Proof.
  intros Hown. unfold app, route, put_user, users_get. rewrite Hown.
  destruct (no_data data); [discriminate |].
  destruct (validateUserData data false) as [[| msg errors] |];
    simpl; try discriminate.
  destruct (_ && _); simpl; [discriminate |].
  auto.
Qed.

(** X9. A PUT on a stored user that is answered 200 keeps the user's id and
    [created_at], sets [updated_at] to the time of the request, replaces
    name, email and age by the body's fields that are neither absent nor
    [null] and keeps the others; it adds and removes no key, touches no
    other user, and a following GET on the id returns the body the PUT
    returned. *)
Theorem updated_user_has_supplied_fields
    (users : store) (e e' : env) (userId : jstring) (user : User)
    (data : value) :
  own_property users userId = Some user ->
  status (fst (app users e (PUT_user userId data))) = 200 ->
  let users' := snd (app users e (PUT_user userId data)) in
  exists user',
    own_property users' userId = Some user'
    /\ fst (app users e (PUT_user userId data)) = json 200 (toDict user')
    /\ id user' = id user
    /\ created_at user' = created_at user
    /\ updated_at user' = now1 e
    /\ name user' = supplied (field data (lit "name")) (name user)
    /\ email user' = supplied (field data (lit "email")) (email user)
    /\ age user' = supplied (field data (lit "age")) (age user)
    /\ keys users' = keys users
    /\ (forall k, k <> userId -> own_property users' k = own_property users k)
    /\ app users' e' (GET_user userId) = (json 200 (toDict user'), users').
Proof.
  intros Hown H users'. subst users'.
  destruct (put_updated users e userId user data Hown H) as (_ & _ & ->).
  cbv zeta. cbn [fst snd].
  eexists. split; [apply own_property_users_set_same |].
  split; [reflexivity |].
  split; [apply id_update |].
  split; [apply created_at_update |].
  split; [apply updated_at_update |].
  split; [apply name_update |].
  split; [apply email_update |].
  split; [apply age_update |].
  split; [now apply (keys_users_set_stored users userId user) |].
  split; [intros k Hk; now apply own_property_users_set_other |].
  unfold app, route, get_user, users_get.
  now rewrite own_property_users_set_same.
Qed.

Lemma updated_user_has_supplied_fields_witness :
  let users' := snd (app after_ann_and_bo sample_env (PUT_user bo_id age_five)) in
  exists user',
    own_property users' bo_id = Some user'
    /\ fst (app after_ann_and_bo sample_env (PUT_user bo_id age_five))
       = json 200 (toDict user')
    /\ id user' = id (new_User bo_env (VStr (lit "Bo"))
                                (VStr (lit "bo@x.com")) VUndefined)
    /\ created_at user' = created_at (new_User bo_env (VStr (lit "Bo"))
                                (VStr (lit "bo@x.com")) VUndefined)
    /\ updated_at user' = now1 sample_env
    /\ name user' = supplied (field age_five (lit "name"))
                       (name (new_User bo_env (VStr (lit "Bo"))
                                (VStr (lit "bo@x.com")) VUndefined))
    /\ email user' = supplied (field age_five (lit "email"))
                       (email (new_User bo_env (VStr (lit "Bo"))
                                (VStr (lit "bo@x.com")) VUndefined))
    /\ age user' = supplied (field age_five (lit "age"))
                       (age (new_User bo_env (VStr (lit "Bo"))
                                (VStr (lit "bo@x.com")) VUndefined))
    /\ keys users' = keys after_ann_and_bo
    /\ (forall k, k <> bo_id ->
                  own_property users' k = own_property after_ann_and_bo k)
    /\ app users' sample_env (GET_user bo_id)
       = (json 200 (toDict user'), users').
Proof.
  apply (updated_user_has_supplied_fields after_ann_and_bo sample_env
           sample_env bo_id
           (new_User bo_env (VStr (lit "Bo")) (VStr (lit "bo@x.com"))
                     VUndefined)
           age_five); reflexivity.
Defined.

(** X10. For a PUT on a stored user whose body is there, passes the update
    validator and has a truthy email, the answer is 409 exactly when an
    entry under another id holds that email, and 200 otherwise: the user's
    own current email is never a conflict. A 409 leaves the store as it
    was. *)
Theorem put_conflict_iff_email_of_another
    (users : store) (e : env) (userId : jstring) (user : User)
    (data : value) :
  own_property users userId = Some user ->
  no_data data = false ->
  validateUserData data false = Ok [] ->
  truthy (field data (lit "email")) = true ->
  (status (fst (app users e (PUT_user userId data))) = 409
   <-> exists k other, In (k, other) (Object_entries users)
                       /\ k <> userId
                       /\ email other = field data (lit "email"))
  /\ (status (fst (app users e (PUT_user userId data))) = 409
      \/ status (fst (app users e (PUT_user userId data))) = 200)
  /\ (status (fst (app users e (PUT_user userId data))) = 409 ->
      snd (app users e (PUT_user userId data)) = users).
Proof.
  intros Hown Hdata Hv Ht.
  destruct (accepted_email data false Hv Ht) as (s & Hs & _).
  unfold app, route, put_user, users_get. rewrite Hown, Hdata, Hv, Ht. simpl.
  destruct (existsb _ _) eqn:Hscan; simpl.
  - repeat split; auto.
    intros _. apply existsb_exists in Hscan as ([k other] & Hin & Heq).
    simpl in Heq. apply andb_true_iff in Heq as [Hk Heq].
    exists k, other. repeat split; [assumption | |].
    + intros ->. now rewrite jstring_eqb_refl in Hk.
    + rewrite Hs in *. now apply strict_equals_string.
  - repeat split; auto; try discriminate.
    intros (k & other & Hin & Hk & Heq). exfalso.
    apply (existsb_false_In _ _ (k, other) Hscan) in Hin. simpl in Hin.
    rewrite (jstring_eqb_neq k userId Hk), Heq, Hs in Hin. simpl in Hin.
    now rewrite jstring_eqb_refl in Hin.
Qed.

Lemma put_conflict_iff_email_of_another_witness :
  (status (fst (app after_ann_and_bo sample_env (PUT_user bo_id ann_without_age)))
   = 409
   <-> exists k other, In (k, other) (Object_entries after_ann_and_bo)
                       /\ k <> bo_id
                       /\ email other = field ann_without_age (lit "email"))
  /\ (status (fst (app after_ann_and_bo sample_env
                       (PUT_user bo_id ann_without_age))) = 409
      \/ status (fst (app after_ann_and_bo sample_env
                          (PUT_user bo_id ann_without_age))) = 200)
  /\ (status (fst (app after_ann_and_bo sample_env
                       (PUT_user bo_id ann_without_age))) = 409 ->
      snd (app after_ann_and_bo sample_env (PUT_user bo_id ann_without_age))
      = after_ann_and_bo).
Proof.
  apply (put_conflict_iff_email_of_another after_ann_and_bo sample_env bo_id
           (new_User bo_env (VStr (lit "Bo")) (VStr (lit "bo@x.com"))
                     VUndefined)
           ann_without_age); reflexivity.
Defined.

(** *** All routes *)

(** X11. The status codes each route can answer with, whatever the store
    and the request: POST 201, 400, 409 or 500; GET /users 200 only;
    GET /users/:userId 200, 404 or 500; PUT 200, 400, 404, 409 or 500;
    DELETE 200 or 404; anything else 404. *)
Theorem status_codes_by_route (users : store) (e : env) (req : request) :
  match req with
  | POST_users _ => In (status (fst (app users e req))) [201; 400; 409; 500]
  | GET_users => status (fst (app users e req)) = 200
  | GET_user _ => In (status (fst (app users e req))) [200; 404; 500]
  | PUT_user _ _ =>
      In (status (fst (app users e req))) [200; 400; 404; 409; 500]
  | DELETE_user _ => In (status (fst (app users e req))) [200; 404]
  | Other => status (fst (app users e req)) = 404
  end.
Proof.
  unfold app, route, post_users, get_users, get_user, put_user, delete_user.
  destruct req; simpl; repeat branch; simpl; tauto.
Qed.

(** X12. The store changes only under a POST answered 201, a PUT answered
    200 or a DELETE answered 200: a GET, an unrouted request, and any
    request answered 400, 404, 409 or 500 leave it as it was. *)
Theorem store_changes_only_on_success
    (users : store) (e : env) (req : request) :
  snd (app users e req) <> users ->
  (exists data, req = POST_users data /\ status (fst (app users e req)) = 201)
  \/ (exists userId data, req = PUT_user userId data
                          /\ status (fst (app users e req)) = 200)
  \/ (exists userId, req = DELETE_user userId
                     /\ status (fst (app users e req)) = 200).
Proof.
  unfold app, route, post_users, get_users, get_user, put_user, delete_user.
  destruct req; simpl; repeat branch; simpl; intros H;
    try (now contradiction H); eauto 6.
Qed.

Lemma store_changes_only_on_success_witness :
  (exists data, POST_users ann = POST_users data
                /\ status (fst (app [] ann_env (POST_users ann))) = 201)
  \/ (exists userId data, POST_users ann = PUT_user userId data
                          /\ status (fst (app [] ann_env (POST_users ann))) = 200)
  \/ (exists userId, POST_users ann = DELETE_user userId
                     /\ status (fst (app [] ann_env (POST_users ann))) = 200).
Proof.
  apply (store_changes_only_on_success [] ann_env (POST_users ann)).
  discriminate.
Defined.

(** X13. In a store whose keys are distinct, a user that is stored before
    and after a request has the same id and [created_at] after it, unless the
    request is a POST whose generated id is that user's key; and the user is
    unchanged altogether unless the request is a PUT on that key. *)
Theorem id_and_created_at_are_kept
    (users : store) (e : env) (req : request) (k : jstring) (u u' : User) :
  NoDup (keys users) ->
  (forall data, req = POST_users data -> uuidv4 (random e) <> k) ->
  own_property users k = Some u ->
  own_property (snd (app users e req)) k = Some u' ->
  id u' = id u
  /\ created_at u' = created_at u
  /\ ((forall data, req <> PUT_user k data) -> u' = u).
Proof.
  intros Hkeys Hpost Hown.
  assert (Hsame : own_property users k = Some u' ->
                  id u' = id u /\ created_at u' = created_at u
                  /\ ((forall data, req <> PUT_user k data) -> u' = u))
    by (intros H'; rewrite Hown in H'; injection H' as <-; auto).
  unfold app, route, post_users, get_users, get_user, put_user, delete_user,
    users_get.
  destruct req as [data | | userId | userId data | userId |]; simpl.
  - repeat branch; try exact Hsame.
    rewrite own_property_users_set_other
      by (apply not_eq_sym; now apply (Hpost data)).
    exact Hsame.
  - exact Hsame.
  - repeat branch; exact Hsame.
  - destruct (own_property users userId) as [user |] eqn:Huser.
    + repeat branch; try exact Hsame.
      intros H'. apply own_property_users_set_cases in H' as [[-> ->] | [_ H']];
        [| now apply Hsame].
      rewrite Hown in Huser. injection Huser as <-.
      rewrite id_update, created_at_update. repeat split.
      intros Hreq. now contradiction (Hreq data).
    + repeat branch; exact Hsame.
  - repeat branch; try exact Hsame;
      intros H'; apply own_property_users_delete in H' as [_ H']; auto.
  - exact Hsame.
Qed.

Lemma id_and_created_at_are_kept_witness :
  id (update (ann_user ann_env (VNum (NZero false))) sample_env
             VUndefined VUndefined (VNum (NFinite false 5 0)))
  = id (ann_user ann_env (VNum (NZero false)))
  /\ created_at (update (ann_user ann_env (VNum (NZero false))) sample_env
                        VUndefined VUndefined (VNum (NFinite false 5 0)))
     = created_at (ann_user ann_env (VNum (NZero false)))
  /\ ((forall data, PUT_user ann_id age_five <> PUT_user ann_id data) ->
      update (ann_user ann_env (VNum (NZero false))) sample_env
             VUndefined VUndefined (VNum (NFinite false 5 0))
      = ann_user ann_env (VNum (NZero false))).
Proof.
  apply (id_and_created_at_are_kept after_ann_and_bo sample_env
           (PUT_user ann_id age_five) ann_id).
  - repeat constructor; simpl; intuition discriminate.
  - discriminate.
  - reflexivity.
  - reflexivity.
Defined.

(** X14. Every store the server can reach from the empty one, by any
    sequence of requests, satisfies [store_ok] and has generated keys only:
    each user is stored once, under its own id, which is an id [uuidv4]
    made; no two users share a truthy email; every truthy stored email is a
    string with an [@]; no stored name is a non-empty string of white space
    only. *)
Theorem reachable_store_invariant (reqs : list (env * request)) :
  store_ok (serve [] reqs) /\ generated_keys (serve [] reqs).
Proof.
  split; [apply reachable_store_ok | apply reachable_generated_keys].
Qed.

(** *** What the validator accepts *)

Lemma age_report_nil (a : value) :
  age_report a = Ok [] <-> acceptable_age a.
Proof.
  unfold acceptable_age, age_report, age_verdict.
  destruct a as [| |b|x|s|l|l];
    try (split; [auto | reflexivity]);
    (split;
     [ intros H; right; right;
       destruct (parseInt _) as [p |]; simpl in H; [| discriminate];
       exists p; split; [reflexivity |];
       destruct (isNaN p), (lt_zero p); simpl in H; try discriminate; auto
     | intros [H | [H | (p & -> & Hn & Hl)]]; try discriminate;
       simpl; now rewrite Hn, Hl ]).
Qed.

Lemma name_errors_nil (requireAll : bool) (v : value) :
  truthy_non_string v = false ->
  (name_errors requireAll v = []
   <-> (requireAll = false /\ truthy v = false)
       \/ exists w, v = VStr w /\ trim w <> []).
Proof.
  intros Hv.
  assert (Hcases : truthy v = false
                   /\ name_errors requireAll v
                      = (if requireAll then [lit "Name is required"] else [])
                   \/ exists c s, v = VStr (c :: s)).
  { destruct v as [| |[|]|[?|? ? ?|?]|[|c s]|l|l]; try discriminate Hv;
      try (left; split; [reflexivity | now destruct requireAll]).
    right. eauto. }
  destruct Hcases as [[Hf ->] | (c & s & ->)].
  - destruct requireAll; split; auto; try discriminate.
    intros [[H _] | (w & -> & Ht)]; [discriminate |].
    destruct w; [now contradiction Ht | discriminate Hf].
  - simpl. destruct (trim (c :: s)) eqn:Et; split.
    + discriminate.
    + intros [[_ H] | (w & Hw & Ht)]; [discriminate |].
      injection Hw as <-. now rewrite Et in Ht.
    + intros _. right. exists (c :: s). split; [reflexivity |].
      rewrite Et. discriminate.
    + reflexivity.
Qed.

Lemma email_errors_nil (requireAll : bool) (v : value) :
  truthy_non_string v = false ->
  (email_errors requireAll v = []
   <-> (requireAll = false /\ truthy v = false)
       \/ exists w, v = VStr w /\ trim w <> [] /\ includes w 64%N = true).
Proof.
  intros Hv.
  assert (Hcases : truthy v = false
                   /\ email_errors requireAll v
                      = (if requireAll then [lit "Email is required"] else [])
                   \/ exists c s, v = VStr (c :: s)).
  { destruct v as [| |[|]|[?|? ? ?|?]|[|c s]|l|l]; try discriminate Hv;
      try (left; split; [reflexivity | now destruct requireAll]).
    right. eauto. }
  destruct Hcases as [[Hf ->] | (c & s & ->)].
  - destruct requireAll; split; auto; try discriminate.
    intros [[H _] | (w & -> & Ht & _)]; [discriminate |].
    destruct w; [now contradiction Ht | discriminate Hf].
  - simpl. destruct (trim (c :: s)) eqn:Et.
    + split; [discriminate |].
      intros [[_ H] | (w & Hw & Ht & _)]; [discriminate |].
      injection Hw as <-. now rewrite Et in Ht.
    + destruct (includes (c :: s) 64) eqn:Eat; split.
      * intros _. right. exists (c :: s). split; [reflexivity |].
        rewrite Et. split; [discriminate | assumption].
      * reflexivity.
      * discriminate.
      * intros [[_ H] | (w & Hw & _ & Hat)]; [discriminate |].
        injection Hw as <-. congruence.
Qed.

(** The bodies a mode accepts: no field may be a truthy non-string, and each
    check must report nothing. *)
Lemma accepts_iff (data : value) (requireAll : bool) :
  validateUserData data requireAll = Ok []
  <-> truthy_non_string (field data (lit "name")) = false
      /\ truthy_non_string (field data (lit "email")) = false
      /\ name_errors requireAll (field data (lit "name")) = []
      /\ email_errors requireAll (field data (lit "email")) = []
      /\ acceptable_age (field data (lit "age")).
Proof.
  split.
  - intros H. destruct (accepted_body data requireAll H) as (Hn & Hm & Hne & Hme).
    repeat split; try assumption.
    rewrite (validateUserData_checks data requireAll Hn Hm) in H.
    apply age_report_nil.
    destruct (age_report _) as [report |]; simpl in H; [| discriminate].
    injection H as H. apply app_eq_nil in H as [_ H].
    apply app_eq_nil in H as [_ ->]. reflexivity.
  - intros (Hn & Hm & Hne & Hme & Ha).
    rewrite (validateUserData_checks data requireAll Hn Hm), Hne, Hme.
    apply age_report_nil in Ha. now rewrite Ha.
Qed.

Lemma string_not_thrown (s : jstring) : truthy_non_string (VStr s) = false.
Proof. unfold truthy_non_string. apply andb_false_r. Qed.

Lemma falsy_not_thrown (v : value) :
  truthy v = false -> truthy_non_string v = false.
Proof. unfold truthy_non_string. now intros ->. Qed.

(** X15. The creation validator ([requireAll] true) returns the empty list
    exactly for the bodies whose name is a string that does not trim to the
    empty string, whose email is such a string and contains [@], and whose
    age is absent, [null], or read by [parseInt] as an integer not below
    zero. *)
Theorem creation_accepts_iff (data : value) :
  validateUserData data true = Ok []
  <-> (exists n, field data (lit "name") = VStr n /\ trim n <> [])
      /\ (exists m, field data (lit "email") = VStr m /\ trim m <> []
                    /\ includes m 64%N = true)
      /\ acceptable_age (field data (lit "age")).
Proof.
  rewrite accepts_iff. split.
  - intros (Hn & Hm & Hne & Hme & Ha).
    apply (name_errors_nil true _ Hn) in Hne as [[H _] | Hne];
      [discriminate |].
    apply (email_errors_nil true _ Hm) in Hme as [[H _] | Hme];
      [discriminate |].
    auto.
  - intros ((n & Hn & Htn) & (m & Hm & Htm & Hat) & Ha).
    rewrite Hn, Hm.
    split; [apply string_not_thrown |].
    split; [apply string_not_thrown |].
    split; [apply name_errors_nil; [apply string_not_thrown | eauto] |].
    split; [apply email_errors_nil; [apply string_not_thrown | eauto 6] |].
    assumption.
Qed.

(** X16. The update validator ([requireAll] false) returns the empty list
    exactly for the bodies whose name is falsy (absent, [null], the empty
    string, 0, [false]) or a string that does not trim to the empty string,
    whose email is falsy or such a string containing [@], and whose age is
    absent, [null], or read by [parseInt] as an integer not below zero. *)
Theorem update_accepts_iff (data : value) :
  validateUserData data false = Ok []
  <-> (truthy (field data (lit "name")) = false
       \/ exists n, field data (lit "name") = VStr n /\ trim n <> [])
      /\ (truthy (field data (lit "email")) = false
          \/ exists m, field data (lit "email") = VStr m /\ trim m <> []
                       /\ includes m 64%N = true)
      /\ acceptable_age (field data (lit "age")).
Proof.
  rewrite accepts_iff. split.
  - intros (Hn & Hm & Hne & Hme & Ha).
    apply (name_errors_nil false _ Hn) in Hne.
    apply (email_errors_nil false _ Hm) in Hme.
    repeat split; [| | assumption].
    + destruct Hne as [[_ H] | H]; auto.
    + destruct Hme as [[_ H] | H]; auto.
  - intros (Hname & Hemail & Ha).
    assert (Hn : truthy_non_string (field data (lit "name")) = false).
    { destruct Hname as [H | (n & -> & _)];
        [now apply falsy_not_thrown | apply string_not_thrown]. }
    assert (Hm : truthy_non_string (field data (lit "email")) = false).
    { destruct Hemail as [H | (m & -> & _)];
        [now apply falsy_not_thrown | apply string_not_thrown]. }
    repeat split; try assumption.
    + apply (name_errors_nil false _ Hn). destruct Hname; auto.
    + apply (email_errors_nil false _ Hm). destruct Hemail; auto.
Qed.

(** *** The two modes, and the messages *)




Lemma age_report_cases (a : value) (report : list jstring) :
  age_report a = Ok report ->
  report = [] \/ report = [lit "Age must be a positive number"].
Proof.
  unfold age_report, age_verdict.
  destruct a; try (intros [= <-]; now left);
    (destruct (parseInt _) as [p |]; simpl; [| discriminate];
     intros [= <-]; destruct (isNaN p || lt_zero p); auto).
Qed.

(** X18. Whenever the validator returns, its list is at most one message
    about the name ("Name is required" or "Name cannot be empty"), then at
    most one about the email ("Email is required", "Email cannot be empty"
    or "Invalid email format"), then at most one about the age ("Age must be
    a positive number"); so it has at most three messages, all different,
    each one of the six messages of the source. *)
Theorem validator_reports_known_messages
    (data : value) (requireAll : bool) (errors : list jstring) :
  validateUserData data requireAll = Ok errors ->
  (exists about_name about_email about_age,
     errors = about_name ++ about_email ++ about_age
     /\ (about_name = []
         \/ about_name = [lit "Name is required"]
         \/ about_name = [lit "Name cannot be empty"])
     /\ (about_email = []
         \/ about_email = [lit "Email is required"]
         \/ about_email = [lit "Email cannot be empty"]
         \/ about_email = [lit "Invalid email format"])
     /\ (about_age = []
         \/ about_age = [lit "Age must be a positive number"]))
  /\ length errors <= 3 /\ incl errors messages /\ NoDup errors.
Proof.
  intros H.
  destruct (truthy_non_string (field data (lit "name"))
            || truthy_non_string (field data (lit "email"))) eqn:Hthrow.
  { rewrite validateUserData_throws in H by assumption. discriminate. }
  apply orb_false_iff in Hthrow as [Hn Hm].
  rewrite validateUserData_checks in H by assumption.
  destruct (age_report _) as [report | x] eqn:Ha; simpl in H; [| discriminate].
  injection H as <-.
  split.
  { exists (name_errors requireAll (field data (lit "name"))),
           (email_errors requireAll (field data (lit "email"))), report.
    split; [reflexivity |].
    split; [apply name_errors_cases |].
    split; [apply email_errors_cases | exact (age_report_cases _ _ Ha)]. }
  destruct (name_errors_cases requireAll (field data (lit "name")))
    as [-> | [-> | ->]];
    destruct (email_errors_cases requireAll (field data (lit "email")))
      as [-> | [-> | [-> | ->]]];
    destruct (age_report_cases _ _ Ha) as [-> | ->];
    (split; [simpl; lia |]);
    (split; [intros msg Hin; unfold messages; simpl in *; tauto |]);
    repeat constructor; simpl; intuition discriminate.
Qed.

Lemma validator_reports_known_messages_witness :
  (exists about_name about_email about_age,
     [ lit "Name is required"; lit "Invalid email format";
       lit "Age must be a positive number" ]
     = about_name ++ about_email ++ about_age
     /\ (about_name = []
         \/ about_name = [lit "Name is required"]
         \/ about_name = [lit "Name cannot be empty"])
     /\ (about_email = []
         \/ about_email = [lit "Email is required"]
         \/ about_email = [lit "Email cannot be empty"]
         \/ about_email = [lit "Invalid email format"])
     /\ (about_age = []
         \/ about_age = [lit "Age must be a positive number"]))
  /\ length [ lit "Name is required"; lit "Invalid email format";
              lit "Age must be a positive number" ] <= 3
  /\ incl [ lit "Name is required"; lit "Invalid email format";
            lit "Age must be a positive number" ] messages
  /\ NoDup [ lit "Name is required"; lit "Invalid email format";
             lit "Age must be a positive number" ].
Proof.
  apply (validator_reports_known_messages payload_three_faults true).
  reflexivity.
Defined.

(** X19. For a payload whose age is a number, in either mode: a finite
    number of magnitude 1 or more, integer or not, is reported with "Age must
    be a positive number" exactly when it is negative; a zero of either sign
    is not reported; an infinity of either sign (a JSON literal out of the
    range of a double) is reported, since it prints as a word [parseInt]
    cannot read. *)
Theorem numeric_age_report
    (data : value) (requireAll : bool) (x : number) :
  payload data = true ->
  field data (lit "age") = VNum x ->
  exists errors,
    validateUserData data requireAll = Ok errors
    /\ match x with
       | NZero _ => ~ In (lit "Age must be a positive number") errors
       | NFinite neg s e =>
           (1 <= e + Z.of_nat (length (pos_digits s)))%Z ->
           (In (lit "Age must be a positive number") errors <-> neg = true)
       | NInfinity _ => In (lit "Age must be a positive number") errors
       end.
Proof.
  intros Hp Ha. rewrite (validateUserData_payload data requireAll Hp).
  eexists. split; [reflexivity |].
  rewrite Ha.
  destruct x as [neg | neg s e | neg].
  - rewrite zero_age_verdict, !in_app_iff.
    intros [H | [H | []]].
    + now apply age_message_not_in_name_errors in H.
    + now apply age_message_not_in_email_errors in H.
  - intros Hn. rewrite (numeric_age_verdict neg s e Hn), !in_app_iff.
    split.
    + intros [H | [H | H]].
      * now apply age_message_not_in_name_errors in H.
      * now apply age_message_not_in_email_errors in H.
      * destruct neg; [reflexivity | destruct H].
    + intros ->. right. right. now left.
  - rewrite !in_app_iff. right. right. destruct neg; now left.
Qed.

Lemma numeric_age_report_witness :
  exists errors,
    validateUserData payload_negative_age true = Ok errors
    /\ ((1 <= 0 + Z.of_nat (length (pos_digits 1)))%Z ->
        (In (lit "Age must be a positive number") errors <-> true = true)).
Proof.
  apply (numeric_age_report payload_negative_age true (NFinite true 1 0));
    reflexivity.
Defined.

(** *** Decimal strings through [parseInt] *)

(** The magnitudes below are the mathematical integers the digits write;
    the check on the age looks at the sign only. *)

Lemma read_digits_step (d : N) (s : jstring) (acc : option N) :
  (d <= 9)%N ->
  read_digits 10 (digit_char d :: s) acc
  = read_digits 10 s
      (Some (match acc with Some a => a * 10 + d | None => d end)%N).
Proof.
  intros Hd.
  assert (Hcases : (d = 0 \/ d = 1 \/ d = 2 \/ d = 3 \/ d = 4 \/ d = 5
                    \/ d = 6 \/ d = 7 \/ d = 8 \/ d = 9)%N) by lia.
  destruct Hcases as
    [-> | [-> | [-> | [-> | [-> | [-> | [-> | [-> | [-> | ->]]]]]]]]];
    reflexivity.
Qed.

(** Reading the digits of a decimal numeral continues the accumulator as
    the standard conversion does. *)
Lemma read_digits_uint (u : Decimal.uint) (acc : positive) :
  read_digits 10 (map digit_char (uint_digits u)) (Some (N.pos acc))
  = Some (N.pos (Pos.of_uint_acc u acc)).
Proof.
  revert acc.
  induction u; intros acc; cbn [uint_digits map Pos.of_uint_acc];
    [reflexivity | ..];
    rewrite read_digits_step by lia; rewrite <- IHu; do 2 f_equal; lia.
Qed.

(** The digits of a positive integer read back as the integer. *)
Lemma read_digits_pos_digits (p : positive) :
  read_digits 10 (decimal p) None = Some (N.pos p).
Proof.
  unfold decimal, pos_digits.
  rewrite <- (DecimalPos.Unsigned.of_to p).
  assert (Hnorm : Decimal.unorm (Pos.to_uint p) = Pos.to_uint p).
  { rewrite <- (DecimalPos.Unsigned.to_of (Pos.to_uint p)).
    now rewrite DecimalPos.Unsigned.of_to. }
  assert (Hhead : Decimal.nzhead (Pos.to_uint p) = Pos.to_uint p).
  { rewrite <- Hnorm at 2. symmetry. apply DecimalFacts.unorm_nzhead.
    intros Hnil. apply (DecimalPos.Unsigned.to_uint_nonzero p).
    rewrite <- Hnorm. now apply DecimalFacts.unorm_0. }
  pose proof (DecimalPos.Unsigned.to_uint_nonnil p) as Hnonnil.
  destruct (Pos.to_uint p) as [|u|u|u|u|u|u|u|u|u|u];
    [contradiction | | | | | | | | | |].
  1: { exfalso. exact (DecimalFacts.nzhead_nonzero _ _ Hhead). }
  all: cbn [uint_digits map Pos.of_uint];
    rewrite read_digits_step by lia; apply read_digits_uint.
Qed.

Lemma parseInt_string_decimal (neg : bool) (p : positive) :
  parseInt_string ((if neg then lit "-" else []) ++ decimal p)
  = Int neg (N.pos p).
Proof.
  pose proof (read_digits_pos_digits p) as Hread.
  unfold decimal in *.
  destruct (pos_digits_head p) as (d & tl & Hp & Hd). rewrite Hp in *.
  assert (Hcases : (d = 1 \/ d = 2 \/ d = 3 \/ d = 4 \/ d = 5 \/ d = 6
                    \/ d = 7 \/ d = 8 \/ d = 9)%N) by lia.
  change (lit "-") with [45%N]. unfold parseInt_string.
  destruct Hcases as [-> | [-> | [-> | [-> | [-> | [-> | [-> | [-> | ->]]]]]]]];
    destruct neg; cbn -[read_digits] in *; now rewrite Hread.
Qed.

(** X20. For a payload whose age is a string made of the decimal digits of
    a positive integer, of any length, with or without a leading minus sign,
    the validator reports "Age must be a positive number" exactly when the
    minus sign is there, in either mode. *)
Theorem decimal_string_age_report
    (data : value) (requireAll : bool) (neg : bool) (p : positive) :
  payload data = true ->
  field data (lit "age") = VStr ((if neg then lit "-" else []) ++ decimal p) ->
  exists errors,
    validateUserData data requireAll = Ok errors
    /\ (In (lit "Age must be a positive number") errors <-> neg = true).
Proof.
  intros Hp Ha. rewrite (validateUserData_payload data requireAll Hp).
  eexists. split; [reflexivity |].
  rewrite Ha. unfold age_errors, age_verdict.
  rewrite parseInt_string_decimal, !in_app_iff. simpl.
  split.
  - intros [H | [H | H]].
    + now apply age_message_not_in_name_errors in H.
    + now apply age_message_not_in_email_errors in H.
    + destruct neg; [reflexivity | destruct H].
  - intros ->. right. right. now left.
Qed.

Lemma decimal_string_age_report_witness :
  exists errors,
    validateUserData
      (VObj [ (lit "name", VStr (lit "Ann"));
              (lit "email", VStr (lit "ann@x.com"));
              (lit "age", VStr (lit "-2024")) ]) true = Ok errors
    /\ (In (lit "Age must be a positive number") errors <-> true = true).
Proof.
  apply (decimal_string_age_report
           (VObj [ (lit "name", VStr (lit "Ann"));
                   (lit "email", VStr (lit "ann@x.com"));
                   (lit "age", VStr (lit "-2024")) ])
           true true 2024); reflexivity.
Defined.

End Properties.
